(** * QuizGame: the adaptive question sequencer and the session scorer

    A shallow embedding of the quiz core of the repository:

    - [Question] and [Quiz] (the scorer), identical in both source files;
    - the generator [questionGenerator] in its two versions: the
      streak-based one ([Adaptive], the file with the hint button) and
      the last-answer one ([App], app.js);
    - the driver that pulls questions with [next], as
      [QuizApp.showNextQuestion] does.

    A JavaScript generator is modelled as an explicit state machine: a
    generator object is either suspended at its start, suspended at one
    of its [yield] expressions together with the values of its local
    variables, or completed.  [next g v] runs the body from the point of
    suspension up to the following [yield] or to the end. *)

From Stdlib Require Import String List Bool Arith Lia Permutation.
Import ListNotations.

(** ** Questions *)

(** [class Question]: five fields set once by the constructor. *)
Record Question : Type := mkQuestion {
  text : string;
  choices : list string;
  answer : string;
  difficulty : string;
  category : string
}.

(** [isCorrectAnswer(choice) { return this.answer === choice; }] *)
Definition isCorrectAnswer (q : Question) (choice : string) : bool :=
  String.eqb (answer q) choice.

(** The three labels the generators filter on. *)
Definition tagged (q : Question) : bool :=
  String.eqb (difficulty q) "easy"%string
  || String.eqb (difficulty q) "medium"%string
  || String.eqb (difficulty q) "hard"%string.

(** ** The scorer: [class Quiz]

    The four counters are JavaScript numbers that start at 0 and only
    ever change by [++]; they are natural numbers here. *)
Module Quiz.

Record t : Type := mk {
  score : nat;
  questions : list Question;
  questionIndex : nat;
  correctAnswers : nat;
  incorrectAnswers : nat
}.

(** [constructor(questions)] *)
Definition new (qs : list Question) : t :=
  {| score := 0; questions := qs; questionIndex := 0;
     correctAnswers := 0; incorrectAnswers := 0 |}.

(** [getCurrentQuestion()]: [undefined] past the end. *)
Definition getCurrentQuestion (q : t) : option Question :=
  nth_error (questions q) (questionIndex q).

(** [checkAnswer(isCorrect)]: updates the counters and returns its
    argument. *)
Definition checkAnswer (q : t) (isCorrect : bool) : t * bool :=
  if isCorrect then
    ({| score := S (score q); questions := questions q;
        questionIndex := questionIndex q;
        correctAnswers := S (correctAnswers q);
        incorrectAnswers := incorrectAnswers q |}, isCorrect)
  else
    ({| score := score q; questions := questions q;
        questionIndex := questionIndex q;
        correctAnswers := correctAnswers q;
        incorrectAnswers := S (incorrectAnswers q) |}, isCorrect).

(** [nextQuestion() { this.questionIndex++; }] *)
Definition nextQuestion (q : t) : t :=
  {| score := score q; questions := questions q;
     questionIndex := S (questionIndex q);
     correctAnswers := correctAnswers q;
     incorrectAnswers := incorrectAnswers q |}.

(** [isEnded() { return this.questionIndex === this.questions.length; }] *)
Definition isEnded (q : t) : bool :=
  Nat.eqb (questionIndex q) (length (questions q)).

(** What [QuizApp.handleAnswerClick] does to the quiz for the clicked
    answer text: [isCorrect] is computed from the current question,
    then [checkAnswer(isCorrect)] and [nextQuestion()] run.  The
    boolean is the one later sent to the generator. *)
Definition handleAnswerClick (q : t) (currentQuestion : Question)
    (clicked : string) : t * bool :=
  let isCorrect := isCorrectAnswer currentQuestion clicked in
  let (q1, _) := checkAnswer q isCorrect in
  (nextQuestion q1, isCorrect).

End Quiz.

(** ** Generators: values, results, the driver *)

(** A value sent into a generator with [next(v)].  The generators only
    test [v === true] and [v === false]; [JNull] stands for [null], the
    value [showNextQuestion] sends first, and for any other value that is
    not a boolean. *)
Inductive JsVal : Type :=
| JNull
| JBool (b : bool).

(** [v === true] and [v === false] *)
Definition is_true (v : JsVal) : bool :=
  match v with JBool true => true | _ => false end.

Definition is_false (v : JsVal) : bool :=
  match v with JBool false => true | _ => false end.

(** How a call of [next] completes: with [{value, done: false}], with
    [{value: undefined, done: true}], or abruptly with an exception that
    leaves the generator. *)
Inductive IteratorResult : Type :=
| IterYield (value : Question)
| IterDone
| IterThrow (name : string).

(** [questions.filter(q => q.difficulty === label)] *)
Definition filterDifficulty (label : string) (qs : list Question)
  : list Question :=
  filter (fun q => String.eqb (difficulty q) label) qs.

(** A fallback order names tiers; taking in an order removes the front
    question of the first tier of the order that is not empty.  The
    result is that question and the three arrays afterwards. *)
Inductive Tier : Type := TEasy | TMedium | THard.

Fixpoint take_in_order (order : list Tier) (e m h : list Question)
  : option (Question * (list Question * list Question * list Question)) :=
  match order with
  | [] => None
  | TEasy :: rest =>
      match e with
      | q :: e' => Some (q, (e', m, h))
      | [] => take_in_order rest e m h
      end
  | TMedium :: rest =>
      match m with
      | q :: m' => Some (q, (e, m', h))
      | [] => take_in_order rest e m h
      end
  | THard :: rest =>
      match h with
      | q :: h' => Some (q, (e, m, h'))
      | [] => take_in_order rest e m h
      end
  end.

(** How a driven session stands when the supplied answers are used up:
    a question is on display and waits for its answer, or the iterator
    reported [done], or an exception came out of [next]. *)
Inductive RunEnd : Type :=
| Pending
| Finished
| Raised (name : string).

Section Driver.

(** A generator object and its [next] method. *)
Variable G : Type.
Variable next : G -> JsVal -> G * IteratorResult.

(** [QuizApp.showNextQuestion(wasCorrect)] repeated: the first call
    sends [sent] ([null] at the start of a quiz); each displayed
    question is answered by the next element of [feedback], which
    [handleAnswerClick] sends with the following call.  On [done] the
    results screen is shown and nothing is pulled any more.  The
    result is the list of questions displayed, in order. *)
Fixpoint run (g : G) (sent : JsVal) (feedback : list bool) {struct feedback}
  : list Question * RunEnd :=
  match next g sent with
  | (g', IterYield q) =>
      match feedback with
      | [] => ([q], Pending)
      | b :: rest =>
          let (qs, e) := run g' (JBool b) rest in (q :: qs, e)
      end
  | (_, IterDone) => ([], Finished)
  | (_, IterThrow name) => ([], Raised name)
  end.

End Driver.

Arguments run {G} next g sent feedback.

(** ** The streak-based generator

    [questionGenerator] of the file with the hint button: it starts on
    an easy question, moves up after streaks of correct answers and
    down after a wrong one. *)
Module Adaptive.

(** The local variables of the generator body. *)
Record locals : Type := mkLocals {
  easy : list Question;
  medium : list Question;
  hard : list Question;
  consecutiveCorrect : nat;
  consecutiveMediumCorrect : nat;
  currentDifficulty : string;
  lastAnswer : JsVal
}.

Definition set_easy (x : list Question) (l : locals) : locals :=
  mkLocals x (medium l) (hard l) (consecutiveCorrect l)
    (consecutiveMediumCorrect l) (currentDifficulty l) (lastAnswer l).
Definition set_medium (x : list Question) (l : locals) : locals :=
  mkLocals (easy l) x (hard l) (consecutiveCorrect l)
    (consecutiveMediumCorrect l) (currentDifficulty l) (lastAnswer l).
Definition set_hard (x : list Question) (l : locals) : locals :=
  mkLocals (easy l) (medium l) x (consecutiveCorrect l)
    (consecutiveMediumCorrect l) (currentDifficulty l) (lastAnswer l).
Definition set_consecutiveCorrect (x : nat) (l : locals) : locals :=
  mkLocals (easy l) (medium l) (hard l) x
    (consecutiveMediumCorrect l) (currentDifficulty l) (lastAnswer l).
Definition set_consecutiveMediumCorrect (x : nat) (l : locals) : locals :=
  mkLocals (easy l) (medium l) (hard l) (consecutiveCorrect l)
    x (currentDifficulty l) (lastAnswer l).
Definition set_currentDifficulty (x : string) (l : locals) : locals :=
  mkLocals (easy l) (medium l) (hard l) (consecutiveCorrect l)
    (consecutiveMediumCorrect l) x (lastAnswer l).
Definition set_lastAnswer (x : JsVal) (l : locals) : locals :=
  mkLocals (easy l) (medium l) (hard l) (consecutiveCorrect l)
    (consecutiveMediumCorrect l) (currentDifficulty l) x.

(** [easy.shift()], [medium.shift()], [hard.shift()]: the first
    element is removed and returned; on an empty array the result is
    [undefined] ([None]) and nothing changes. *)
Definition easy_shift (l : locals) : option Question * locals :=
  match easy l with
  | [] => (None, l)
  | q :: rest => (Some q, set_easy rest l)
  end.

Definition medium_shift (l : locals) : option Question * locals :=
  match medium l with
  | [] => (None, l)
  | q :: rest => (Some q, set_medium rest l)
  end.

Definition hard_shift (l : locals) : option Question * locals :=
  match hard l with
  | [] => (None, l)
  | q :: rest => (Some q, set_hard rest l)
  end.

(** [a || b] on two shifts: a [Question] is an object and so truthy;
    [b] is evaluated only when [a] gave [undefined]. *)
Definition or_else (a b : locals -> option Question * locals)
    (l : locals) : option Question * locals :=
  match a l with
  | (Some q, l') => (Some q, l')
  | (None, l') => b l'
  end.

Infix "<||>" := or_else (at level 51, right associativity).

(** The three states of a generator object; a suspended generator
    keeps its locals, and remembers at which [yield] it stands: the
    one of the opening question or the one inside the loop. *)
Inductive yield_point : Type := YSeed | YLoop.

Inductive gen : Type :=
| SuspendedStart (questions : list Question)
| SuspendedYield (y : yield_point) (l : locals)
| Completed.

(** Calling [questionGenerator(questions)] runs nothing of the body. *)
Definition questionGenerator (questions : list Question) : gen :=
  SuspendedStart questions.

(** The body up to the opening [if]: the three filters and the four
    [let]s. *)
Definition init (questions : list Question) : locals :=
  {| easy := filterDifficulty "easy" questions;
     medium := filterDifficulty "medium" questions;
     hard := filterDifficulty "hard" questions;
     consecutiveCorrect := 0;
     consecutiveMediumCorrect := 0;
     currentDifficulty := "easy";
     lastAnswer := JNull |}.

(** One pass through the body of the [while] loop, up to the test
    [if (nextQuestion)]: the value of [nextQuestion] and the locals. *)
Definition loop_body (l0 : locals) : option Question * locals :=
  if is_true (lastAnswer l0) then
    let l1 := set_consecutiveCorrect (S (consecutiveCorrect l0)) l0 in
    let l2 :=
      if String.eqb (currentDifficulty l1) "medium"
      then set_consecutiveMediumCorrect
             (S (consecutiveMediumCorrect l1)) l1
      else l1 in
    if String.eqb (currentDifficulty l2) "easy"
       && (2 <=? consecutiveCorrect l2) then
      if 0 <? length (medium l2) then
        medium_shift
          (set_consecutiveMediumCorrect 0
             (set_currentDifficulty "medium" l2))
      else (easy_shift <||> hard_shift) l2
    else if String.eqb (currentDifficulty l2) "medium"
            && (3 <=? consecutiveMediumCorrect l2) then
      if 0 <? length (hard l2) then
        hard_shift (set_currentDifficulty "hard" l2)
      else (medium_shift <||> easy_shift) l2
    else
      if String.eqb (currentDifficulty l2) "easy"
         && (0 <? length (easy l2)) then easy_shift l2
      else if String.eqb (currentDifficulty l2) "medium"
              && (0 <? length (medium l2)) then medium_shift l2
      else if String.eqb (currentDifficulty l2) "hard"
              && (0 <? length (hard l2)) then hard_shift l2
      else (easy_shift <||> medium_shift <||> hard_shift) l2
  else if is_false (lastAnswer l0) then
    let l1 := set_consecutiveCorrect 0 l0 in
    if String.eqb (currentDifficulty l1) "hard" then
      (medium_shift <||> easy_shift <||> hard_shift)
        (set_consecutiveMediumCorrect 0
           (set_currentDifficulty "medium" l1))
    else if String.eqb (currentDifficulty l1) "medium" then
      (easy_shift <||> medium_shift <||> hard_shift)
        (set_consecutiveMediumCorrect 0
           (set_currentDifficulty "easy" l1))
    else (easy_shift <||> medium_shift <||> hard_shift) l1
  else (easy_shift <||> medium_shift <||> hard_shift) l0.

(** [isExhausted]: the negation of the loop condition. *)
Definition loop_condition (l : locals) : bool :=
  (0 <? length (easy l)) || (0 <? length (medium l))
  || (0 <? length (hard l)).

(** From the loop head to the next [yield] or to the end: the loop
    ends when its condition fails or on [break]. *)
Definition while_loop (l : locals) : gen * IteratorResult :=
  if loop_condition l then
    match loop_body l with
    | (Some q, l') => (SuspendedYield YLoop l', IterYield q)
    | (None, _) => (Completed, IterDone)
    end
  else (Completed, IterDone).

(** What runs when the generator resumes at the opening [yield]:
    [lastAnswer] receives the value sent, and the streak is seeded. *)
Definition seed (v : JsVal) (l : locals) : locals :=
  let l1 := set_lastAnswer v l in
  if is_true (lastAnswer l1) then set_consecutiveCorrect 1 l1
  else set_consecutiveCorrect 0 l1.

(** The code between a [yield] and the loop head, run when [next(v)]
    resumes the generator: [lastAnswer = yield ...] and, at the opening
    [yield] only, the seeding. *)
Definition resume (y : yield_point) (v : JsVal) (l : locals) : locals :=
  match y with
  | YSeed => seed v l
  | YLoop => set_lastAnswer v l
  end.

(** [next(v)].  The value sent with the first call is dropped. *)
Definition next (g : gen) (v : JsVal) : gen * IteratorResult :=
  match g with
  | SuspendedStart questions =>
      let l := init questions in
      match easy l with
      | question :: rest =>
          (SuspendedYield YSeed (set_easy rest l), IterYield question)
      | [] => while_loop l
      end
  | SuspendedYield y l => while_loop (resume y v l)
  | Completed => (Completed, IterDone)
  end.

(** The questions still held by the three arrays. *)
Definition pool (l : locals) : list Question :=
  easy l ++ medium l ++ hard l.

Definition remaining (g : gen) : list Question :=
  match g with
  | SuspendedStart questions => pool (init questions)
  | SuspendedYield _ l => pool l
  | Completed => []
  end.

End Adaptive.

(** ** The last-answer generator

    [questionGenerator] of app.js: it starts on a medium question, then
    takes the hardest question left after a correct answer and the
    easiest one left after a wrong answer. *)
Module App.

Record locals : Type := mkLocals {
  easy : list Question;
  medium : list Question;
  hard : list Question;
  lastCorrect : JsVal
}.

Definition set_lastCorrect (x : JsVal) (l : locals) : locals :=
  mkLocals (easy l) (medium l) (hard l) x.

Definition easy_shift (l : locals) : option Question * locals :=
  match easy l with
  | [] => (None, l)
  | q :: rest => (Some q, mkLocals rest (medium l) (hard l) (lastCorrect l))
  end.

Definition medium_shift (l : locals) : option Question * locals :=
  match medium l with
  | [] => (None, l)
  | q :: rest => (Some q, mkLocals (easy l) rest (hard l) (lastCorrect l))
  end.

Definition hard_shift (l : locals) : option Question * locals :=
  match hard l with
  | [] => (None, l)
  | q :: rest => (Some q, mkLocals (easy l) (medium l) rest (lastCorrect l))
  end.

(** Both [yield]s resume alike: [lastCorrect] receives the value sent
    and control reaches the loop head; one suspended state serves. *)
Inductive gen : Type :=
| SuspendedStart (questions : list Question)
| SuspendedYield (l : locals)
| Completed.

Definition questionGenerator (questions : list Question) : gen :=
  SuspendedStart questions.

Definition init (questions : list Question) : locals :=
  {| easy := filterDifficulty "easy" questions;
     medium := filterDifficulty "medium" questions;
     hard := filterDifficulty "hard" questions;
     lastCorrect := JNull |}.

(** The loop body up to [if (nextQuestion)]. *)
Definition loop_body (l : locals) : option Question * locals :=
  if is_true (lastCorrect l) then
    if 0 <? length (hard l) then hard_shift l
    else if 0 <? length (medium l) then medium_shift l
    else easy_shift l
  else if is_false (lastCorrect l) then
    if 0 <? length (easy l) then easy_shift l
    else if 0 <? length (medium l) then medium_shift l
    else hard_shift l
  else
    if 0 <? length (medium l) then medium_shift l
    else if 0 <? length (easy l) then easy_shift l
    else hard_shift l.

Definition loop_condition (l : locals) : bool :=
  (0 <? length (easy l)) || (0 <? length (medium l))
  || (0 <? length (hard l)).

Definition while_loop (l : locals) : gen * IteratorResult :=
  if loop_condition l then
    match loop_body l with
    | (Some q, l') => (SuspendedYield l', IterYield q)
    | (None, _) => (Completed, IterDone)
    end
  else (Completed, IterDone).

Definition next (g : gen) (v : JsVal) : gen * IteratorResult :=
  match g with
  | SuspendedStart questions =>
      let l := init questions in
      match medium l with
      | q :: rest =>
          (SuspendedYield (mkLocals (easy l) rest (hard l) (lastCorrect l)),
           IterYield q)
      | [] => while_loop l
      end
  | SuspendedYield l => while_loop (set_lastCorrect v l)
  | Completed => (Completed, IterDone)
  end.

Definition pool (l : locals) : list Question :=
  easy l ++ medium l ++ hard l.

Definition remaining (g : gen) : list Question :=
  match g with
  | SuspendedStart questions => pool (init questions)
  | SuspendedYield l => pool l
  | Completed => []
  end.

End App.

(** ** A sample pool

    Two easy, two medium and one hard question in arrival order, and a
    variant whose last question carries a label outside the three. *)
Definition sample (name label : string) : Question :=
  {| text := name; choices := ["yes"%string; "no"%string];
     answer := "yes"; difficulty := label; category := "General" |}.

Definition E1 : Question := sample "E1" "easy".
Definition E2 : Question := sample "E2" "easy".
Definition M1 : Question := sample "M1" "medium".
Definition M2 : Question := sample "M2" "medium".
Definition H1 : Question := sample "H1" "hard".
Definition X1 : Question := sample "X1" "expert".

Definition sample_pool : list Question := [E1; E2; M1; M2; H1].

(** ** States reached by a session, and what they keep *)

Section DriverState.

Variable G : Type.
Variable next : G -> JsVal -> G * IteratorResult.

(** The generator object after the calls of [run]. *)
Fixpoint run_state (g : G) (sent : JsVal) (feedback : list bool)
    {struct feedback} : G :=
  match next g sent with
  | (g', IterYield _) =>
      match feedback with
      | [] => g'
      | b :: rest => run_state g' (JBool b) rest
      end
  | (g', _) => g'
  end.

End DriverState.

Arguments run_state {G} next g sent feedback.

(** Every question of an array carries the label of the array. *)
Definition only (label : string) (qs : list Question) : Prop :=
  Forall (fun q => difficulty q = label) qs.

(** What the streak-based generator keeps between two calls: each array
    holds questions of its own label only, the current difficulty is one
    of the three labels, the medium streak is 0 at easy, at least 3 at
    hard, and never above the streak. *)
Definition adaptive_inv (l : Adaptive.locals) : Prop :=
  only "easy" (Adaptive.easy l) /\
  only "medium" (Adaptive.medium l) /\
  only "hard" (Adaptive.hard l) /\
  (Adaptive.currentDifficulty l = "easy"%string
   \/ Adaptive.currentDifficulty l = "medium"%string
   \/ Adaptive.currentDifficulty l = "hard"%string) /\
  (Adaptive.currentDifficulty l = "easy"%string ->
   Adaptive.consecutiveMediumCorrect l = 0) /\
  (Adaptive.currentDifficulty l = "hard"%string ->
   3 <= Adaptive.consecutiveMediumCorrect l) /\
  Adaptive.consecutiveMediumCorrect l <= Adaptive.consecutiveCorrect l.

Definition adaptive_gen_inv (g : Adaptive.gen) : Prop :=
  match g with
  | Adaptive.SuspendedStart _ => True
  | Adaptive.SuspendedYield Adaptive.YSeed l =>
      adaptive_inv l /\ Adaptive.currentDifficulty l = "easy"%string
  | Adaptive.SuspendedYield Adaptive.YLoop l => adaptive_inv l
  | Adaptive.Completed => True
  end.

Definition app_inv (l : App.locals) : Prop :=
  only "easy" (App.easy l) /\
  only "medium" (App.medium l) /\
  only "hard" (App.hard l).

Definition app_gen_inv (g : App.gen) : Prop :=
  match g with
  | App.SuspendedStart _ => True
  | App.SuspendedYield l => app_inv l
  | App.Completed => True
  end.

(** The order in which the last-answer generator displays a pool when
    every answer is correct, and when every answer is wrong. *)
Definition app_order_all_correct (questions : list Question)
  : list Question :=
  match filterDifficulty "medium" questions with
  | m :: ms =>
      m :: filterDifficulty "hard" questions ++ ms
        ++ filterDifficulty "easy" questions
  | [] =>
      match filterDifficulty "easy" questions with
      | e :: es => e :: filterDifficulty "hard" questions ++ es
      | [] => filterDifficulty "hard" questions
      end
  end.

Definition app_order_all_wrong (questions : list Question)
  : list Question :=
  match filterDifficulty "medium" questions with
  | m :: ms =>
      m :: filterDifficulty "easy" questions ++ ms
        ++ filterDifficulty "hard" questions
  | [] =>
      filterDifficulty "easy" questions ++ filterDifficulty "hard" questions
  end.

(** One question leaves the front of exactly one of three arrays. *)
Definition took (e m h : list Question) (q : Question)
    (e' m' h' : list Question) : Prop :=
  (e = q :: e' /\ m = m' /\ h = h') \/
  (e = e' /\ m = q :: m' /\ h = h') \/
  (e = e' /\ m = m' /\ h = q :: h').

(** The array of the streak-based generator that a label names. *)
Definition adaptive_tier (label : string) (l : Adaptive.locals)
  : list Question :=
  if String.eqb label "easy" then Adaptive.easy l
  else if String.eqb label "medium" then Adaptive.medium l
  else if String.eqb label "hard" then Adaptive.hard l
  else [].

(** ** The application object: [class QuizApp] of the file with hints

    The fields of [this] that the quiz logic reads and writes, and the
    parts of the page it drives: the answer buttons it creates, the hint
    button, the screen on display and the callbacks it has handed to
    [setTimeout].  The user record and its stored history, the texts
    written into the page and the visual effects play no part in any
    decision of the methods below and are left out. *)
Module QuizApp.

(** An answer button: the properties the code sets. *)
Record Button : Type := mkButton {
  innerText : string;
  disabled : bool;
  classList : list string;
  opacity : string;
  pointerEvents : string;
  textDecoration : string
}.

(** [document.createElement('button')], [innerText = choice],
    [classList.add('btn')]. *)
Definition createButton (choice : string) : Button :=
  {| innerText := choice; disabled := false; classList := ["btn"%string];
     opacity := ""; pointerEvents := ""; textDecoration := "" |}.

(** [classList.add(c)]: a class is listed once. *)
Definition classList_add (c : string) (b : Button) : Button :=
  if existsb (String.eqb c) (classList b) then b
  else mkButton (innerText b) (disabled b) (classList b ++ [c])
         (opacity b) (pointerEvents b) (textDecoration b).

(** The three style assignments of the hint. *)
Definition strike (b : Button) : Button :=
  mkButton (innerText b) (disabled b) (classList b)
    "0.3" "none" "line-through".

(** The hint button: whether it is disabled, and its opacity. *)
Record HintButton : Type := mkHintButton {
  hintDisabled : bool;
  hintOpacity : string
}.

Inductive Screen : Type :=
| usernameScreen | loadingScreen | errorScreen | quizScreen | resultsScreen.

Record t : Type := mk {
  quiz : option Quiz.t;
  questionIterator : option Adaptive.gen;
  currentQuestion : option Question;
  correctStreak : nat;
  hintsRemaining : nat;
  usedHintOnCurrentQuestion : bool;
  answerButtons : list Button;
  hintBtn : HintButton;
  screen : Screen;
  timers : list bool
}.

(** [constructor()]: the fields as initialised; the page as loaded, with
    no answer button yet, the hint button and the screen as the markup
    has them. *)
Definition new (hint0 : HintButton) (screen0 : Screen) : t :=
  {| quiz := None; questionIterator := None; currentQuestion := None;
     correctStreak := 0; hintsRemaining := 3;
     usedHintOnCurrentQuestion := false;
     answerButtons := []; hintBtn := hint0; screen := screen0;
     timers := [] |}.

(** [updateHintButton()] *)
Definition updateHintButton (a : t) : t :=
  let hb :=
    if hintsRemaining a <=? 0 then mkHintButton true "0.4"
    else if usedHintOnCurrentQuestion a then mkHintButton true "0.4"
    else mkHintButton false "1" in
  mk (quiz a) (questionIterator a) (currentQuestion a) (correctStreak a)
     (hintsRemaining a) (usedHintOnCurrentQuestion a) (answerButtons a)
     hb (screen a) (timers a).

(** [displayQuestion(question)]: the hint flag is cleared, the old
    buttons are removed and one button per choice is appended, in the
    order of [question.choices]; then the hint button is refreshed. *)
Definition displayQuestion (a : t) (question : Question) : t :=
  updateHintButton
    (mk (quiz a) (questionIterator a) (currentQuestion a) (correctStreak a)
        (hintsRemaining a) false (map createButton (choices question))
        (hintBtn a) (screen a) (timers a)).

(** [showResults()], as far as the modelled state goes: the results
    screen is put on display.  The statistics, the stored history and
    the texts are not modelled; storing the history is taken to
    succeed. *)
Definition showResults (a : t) : t :=
  mk (quiz a) (questionIterator a) (currentQuestion a) (correctStreak a)
     (hintsRemaining a) (usedHintOnCurrentQuestion a) (answerButtons a)
     (hintBtn a) resultsScreen (timers a).

(** [showNextQuestion(wasCorrect)].  [None]: [questionIterator] is
    [null] and the call of [next] throws a TypeError before anything
    changed. *)
Definition showNextQuestion (a : t) (wasCorrect : JsVal) : option t :=
  match questionIterator a with
  | None => None
  | Some g =>
      let (g', r) := Adaptive.next g wasCorrect in
      let a1 := mk (quiz a) (Some g') (currentQuestion a) (correctStreak a)
                  (hintsRemaining a) (usedHintOnCurrentQuestion a)
                  (answerButtons a) (hintBtn a) (screen a) (timers a) in
      match r with
      | IterYield q =>
          Some (displayQuestion
                  (mk (quiz a1) (questionIterator a1) (Some q)
                      (correctStreak a1) (hintsRemaining a1)
                      (usedHintOnCurrentQuestion a1) (answerButtons a1)
                      (hintBtn a1) (screen a1) (timers a1)) q)
      | IterDone => Some (showResults a1)
      | IterThrow _ => None
      end
  end.

(** [startQuiz()] from the point where the username was accepted:
    [fetched] is what [await fetchQuestions(...)] gave, the questions or
    [None] for a rejected promise.  An exception inside the [try] block
    leads to the error screen like a failed fetch. *)
Definition startQuiz (a : t) (fetched : option (list Question)) : t :=
  let a1 := mk (quiz a) (questionIterator a) (currentQuestion a) 0 3
              (usedHintOnCurrentQuestion a) (answerButtons a) (hintBtn a)
              loadingScreen (timers a) in
  match fetched with
  | None =>
      mk (quiz a1) (questionIterator a1) (currentQuestion a1)
         (correctStreak a1) (hintsRemaining a1)
         (usedHintOnCurrentQuestion a1) (answerButtons a1) (hintBtn a1)
         errorScreen (timers a1)
  | Some questions =>
      let q := Quiz.new questions in
      let a2 := mk (Some q)
                  (Some (Adaptive.questionGenerator (Quiz.questions q)))
                  (currentQuestion a1) (correctStreak a1)
                  (hintsRemaining a1) (usedHintOnCurrentQuestion a1)
                  (answerButtons a1) (hintBtn a1) quizScreen (timers a1) in
      match showNextQuestion a2 JNull with
      | Some a3 => a3
      | None =>
          mk (quiz a2) (questionIterator a2) (currentQuestion a2)
             (correctStreak a2) (hintsRemaining a2)
             (usedHintOnCurrentQuestion a2) (answerButtons a2) (hintBtn a2)
             errorScreen (timers a2)
      end
  end.

(** [disableAllButtons()] and [highlightAnswers()] *)
Definition disableButton (b : Button) : Button :=
  mkButton (innerText b) true (classList b)
    (opacity b) (pointerEvents b) (textDecoration b).

Definition highlightButton (cq : Question) (b : Button) : Button :=
  if isCorrectAnswer cq (innerText b) then classList_add "correct" b
  else classList_add "incorrect" b.

(** [handleAnswerClick(event)] for a click on [target].  [None]: there
    is no current question or no quiz, and a TypeError is thrown before
    anything changed.  The callback handed to [setTimeout] is recorded
    with the boolean it will send. *)
Definition handleAnswerClick (a : t) (target : Button) : option t :=
  match currentQuestion a, quiz a with
  | Some cq, Some q =>
      let answer := innerText target in
      let isCorrect := isCorrectAnswer cq answer in
      let (q1, _) := Quiz.checkAnswer q isCorrect in
      let streak := if isCorrect then S (correctStreak a) else 0 in
      let buttons :=
        map (highlightButton cq) (map disableButton (answerButtons a)) in
      Some (mk (Some (Quiz.nextQuestion q1)) (questionIterator a)
              (currentQuestion a) streak (hintsRemaining a)
              (usedHintOnCurrentQuestion a) buttons (hintBtn a) (screen a)
              (timers a ++ [isCorrect]))
  | _, _ => None
  end.

(** The positions of the buttons that [use5050Hint] restyles:
    [buttons.filter(not correct).slice(0, 2)]. *)
Definition toRemove (cq : Question) (buttons : list Button) : list nat :=
  firstn 2
    (filter
       (fun i =>
          match nth_error buttons i with
          | Some b => negb (isCorrectAnswer cq (innerText b))
          | None => false
          end)
       (seq 0 (length buttons))).

Definition strikeAt (positions : list nat) (buttons : list Button)
  : list Button :=
  map (fun ib => if existsb (Nat.eqb (fst ib)) positions
                 then strike (snd ib) else snd ib)
      (combine (seq 0 (length buttons)) buttons).

(** [use5050Hint()].  [None]: there are buttons but no current question,
    and the first callback throws a TypeError before anything changed. *)
Definition use5050Hint (a : t) : option t :=
  if (hintsRemaining a <=? 0) || usedHintOnCurrentQuestion a then Some a
  else
    match currentQuestion a, answerButtons a with
    | None, _ :: _ => None
    | None, [] =>
        Some (updateHintButton
                (mk (quiz a) (questionIterator a) (currentQuestion a)
                    (correctStreak a) (pred (hintsRemaining a)) true
                    (answerButtons a) (hintBtn a) (screen a) (timers a)))
    | Some cq, buttons =>
        Some (updateHintButton
                (mk (quiz a) (questionIterator a) (currentQuestion a)
                    (correctStreak a) (pred (hintsRemaining a)) true
                    (strikeAt (toRemove cq buttons) buttons)
                    (hintBtn a) (screen a) (timers a)))
    end.

(** What the page can make happen: a click on the answer button at a
    position, a click on the hint button, and the oldest pending
    [setTimeout] callback coming due.  A disabled button receives no
    click; an exception in a handler leaves the state as it was. *)
Inductive Event : Type :=
| ClickAnswer (position : nat)
| ClickHint
| TimerFires.

Definition or_unchanged (a : t) (r : option t) : t :=
  match r with Some a' => a' | None => a end.

Definition dispatch (a : t) (ev : Event) : t :=
  match ev with
  | ClickAnswer i =>
      match nth_error (answerButtons a) i with
      | Some b =>
          if disabled b then a else or_unchanged a (handleAnswerClick a b)
      | None => a
      end
  | ClickHint =>
      if hintDisabled (hintBtn a) then a
      else or_unchanged a (use5050Hint a)
  | TimerFires =>
      match timers a with
      | [] => a
      | b :: rest =>
          let a1 := mk (quiz a) (questionIterator a) (currentQuestion a)
                      (correctStreak a) (hintsRemaining a)
                      (usedHintOnCurrentQuestion a) (answerButtons a)
                      (hintBtn a) (screen a) rest in
          or_unchanged a1 (showNextQuestion a1 (JBool b))
      end
  end.

End QuizApp.

(** ** Sessions of the application *)

(** The state after the username was accepted, the questions arrived
    and the page went through a list of events. *)
Definition session (hint0 : QuizApp.HintButton) (screen0 : QuizApp.Screen)
    (questions : list Question) (events : list QuizApp.Event) : QuizApp.t :=
  fold_left QuizApp.dispatch events
    (QuizApp.startQuiz (QuizApp.new hint0 screen0) (Some questions)).

(** The buttons of a question as [displayQuestion] creates them, and as
    they stand once a hint was taken on the question. *)
Definition freshButtons (cq : Question) : list QuizApp.Button :=
  map QuizApp.createButton (choices cq).

Definition hintedButtons (cq : Question) : list QuizApp.Button :=
  QuizApp.strikeAt (QuizApp.toRemove cq (freshButtons cq)) (freshButtons cq).

Definition allDisabled (bs : list QuizApp.Button) : Prop :=
  Forall (fun b => QuizApp.disabled b = true) bs.

(** What every state of a session satisfies.  The counters of the quiz
    agree, no more than three hints are left, and the session is in one
    of three phases: a question is on display and waits for its answer;
    an answer was given and the callback that will bring the next
    question is pending; or the results are on display. *)
Definition session_inv (questions : list Question) (a : QuizApp.t) : Prop :=
  exists q g,
    QuizApp.quiz a = Some q /\
    QuizApp.questionIterator a = Some g /\
    Quiz.questions q = questions /\
    Quiz.score q = Quiz.correctAnswers q /\
    Quiz.correctAnswers q + Quiz.incorrectAnswers q = Quiz.questionIndex q /\
    QuizApp.hintsRemaining a <= 3 /\
    ((QuizApp.screen a = QuizApp.quizScreen /\
      QuizApp.timers a = [] /\
      Quiz.questionIndex q + 1 + length (Adaptive.remaining g)
        = length (filter tagged questions) /\
      QuizApp.hintDisabled (QuizApp.hintBtn a)
        = (QuizApp.hintsRemaining a <=? 0)
          || QuizApp.usedHintOnCurrentQuestion a /\
      exists cq,
        QuizApp.currentQuestion a = Some cq /\
        QuizApp.answerButtons a
          = if QuizApp.usedHintOnCurrentQuestion a
            then hintedButtons cq else freshButtons cq)
     \/
     (QuizApp.screen a = QuizApp.quizScreen /\
      (exists b, QuizApp.timers a = [b]) /\
      Quiz.questionIndex q + length (Adaptive.remaining g)
        = length (filter tagged questions) /\
      allDisabled (QuizApp.answerButtons a))
     \/
     (QuizApp.screen a = QuizApp.resultsScreen /\
      QuizApp.timers a = [] /\
      Quiz.questionIndex q = length (filter tagged questions) /\
      Adaptive.remaining g = [] /\
      allDisabled (QuizApp.answerButtons a))).

(** [Quiz.handleAnswerClick] over a list of displayed questions and the
    texts clicked on them. *)
Definition quiz_answers (q : Quiz.t) (clicks : list (Question * string))
  : Quiz.t :=
  fold_left (fun q c => fst (Quiz.handleAnswerClick q (fst c) (snd c)))
    clicks q.

Definition correct_clicks (clicks : list (Question * string)) : nat :=
  length (filter (fun c => isCorrectAnswer (fst c) (snd c)) clicks).

(** * Properties *)

(** Moving the taken question to the front of a pool. *)
Lemma perm_front_cons (q x : Question) (r r' : list Question) :
  Permutation (q :: r') r -> Permutation (q :: x :: r') (x :: r).
Proof.
  intros H. eapply perm_trans; [apply perm_swap|]. now constructor.
Qed.

Lemma perm_front_app (q : Question) (a r r' : list Question) :
  Permutation (q :: r') r -> Permutation (q :: a ++ r') (a ++ r).
Proof.
  intros H. eapply perm_trans; [apply Permutation_middle|].
  now apply Permutation_app_head.
Qed.

Ltac perm_front :=
  first [ apply Permutation_refl
        | apply perm_front_cons; perm_front
        | apply perm_front_app; perm_front ].

(** The three filters of a list in which every question carries one of
    the three labels hold the whole list. *)
Lemma filter_three_perm (qs : list Question) :
  Permutation
    (filterDifficulty "easy" qs ++ filterDifficulty "medium" qs
       ++ filterDifficulty "hard" qs)
    (filter tagged qs).
Proof.
  unfold filterDifficulty, tagged.
  induction qs as [|q qs IH]; simpl; [constructor|].
  destruct (String.eqb_spec (difficulty q) "easy") as [E|E].
  - rewrite E. simpl. now constructor.
  - destruct (String.eqb_spec (difficulty q) "medium") as [M|M].
    + rewrite M. simpl.
      apply Permutation_sym, Permutation_cons_app, Permutation_sym, IH.
    + destruct (String.eqb_spec (difficulty q) "hard") as [H|H].
      * simpl. rewrite app_assoc in *.
        apply Permutation_sym, Permutation_cons_app, Permutation_sym, IH.
      * simpl. exact IH.
Qed.

Lemma filter_tagged_all (qs : list Question) :
  Forall (fun q => tagged q = true) qs -> filter tagged qs = qs.
Proof.
  induction 1 as [|q qs H _ IH]; simpl; [reflexivity|].
  now rewrite H, IH.
Qed.

Lemma filter_tagged_length (qs : list Question) :
  length (filter tagged qs) <= length qs.
Proof.
  induction qs as [|q qs IH]; simpl; [lia|].
  destruct (tagged q); simpl; lia.
Qed.

Lemma filter_tagged_short (qs : list Question) (q : Question) :
  In q qs -> tagged q = false -> length (filter tagged qs) < length qs.
Proof.
  induction qs as [|x qs IH]; simpl; [tauto|].
  intros [->|H] T.
  - rewrite T. pose proof (filter_tagged_length qs). lia.
  - specialize (IH H T). destruct (tagged x); simpl; lia.
Qed.

(** ** The driver over any generator that hands out its pool *)
Section DriverFacts.

Variable G : Type.
Variable next : G -> JsVal -> G * IteratorResult.

(** The questions a generator still holds. *)
Variable remaining : G -> list Question.

Hypothesis next_done : forall g v,
  remaining g = [] -> exists g', next g v = (g', IterDone).

Hypothesis next_yield : forall g v,
  remaining g <> [] ->
  exists g' q, next g v = (g', IterYield q) /\
               Permutation (remaining g) (q :: remaining g').

Lemma run_sub : forall feedback g v,
  exists rest,
    Permutation (remaining g) (fst (run next g v feedback) ++ rest).
Proof.
  induction feedback as [|b fb IH]; intros g v.
  - destruct (remaining g) as [|x xs] eqn:E.
    + destruct (next_done g v E) as [g' H]. simpl. rewrite H.
      exists []. constructor.
    + destruct (next_yield g v) as (g' & q & H & P); [congruence|].
      simpl. rewrite H. simpl. exists (remaining g').
      rewrite <- E. exact P.
  - destruct (remaining g) as [|x xs] eqn:E.
    + destruct (next_done g v E) as [g' H]. simpl. rewrite H.
      exists []. constructor.
    + destruct (next_yield g v) as (g' & q & H & P); [congruence|].
      simpl. rewrite H.
      destruct (IH g' (JBool b)) as [rest R].
      destruct (run next g' (JBool b) fb) as [qs e]. simpl in *.
      exists rest. rewrite <- E.
      eapply perm_trans; [exact P|]. now constructor.
Qed.

Lemma run_full : forall feedback g v,
  length (remaining g) <= length feedback ->
  snd (run next g v feedback) = Finished /\
  Permutation (fst (run next g v feedback)) (remaining g).
Proof.
  induction feedback as [|b fb IH]; intros g v Hlen.
  - destruct (remaining g) as [|x xs] eqn:E; [|simpl in Hlen; lia].
    destruct (next_done g v E) as [g' H]. simpl. rewrite H.
    split; [reflexivity|constructor].
  - destruct (remaining g) as [|x xs] eqn:E.
    + destruct (next_done g v E) as [g' H]. simpl. rewrite H.
      split; [reflexivity|constructor].
    + destruct (next_yield g v) as (g' & q & H & P); [congruence|].
      rewrite E in P.
      assert (L : length (remaining g') <= length fb).
      { apply Permutation_length in P. simpl in *. lia. }
      destruct (IH g' (JBool b) L) as [F Q].
      simpl. rewrite H.
      destruct (run next g' (JBool b) fb) as [qs e]. simpl in *.
      split; [exact F|].
      apply Permutation_sym. eapply perm_trans; [exact P|].
      constructor. now apply Permutation_sym.
Qed.

Lemma run_pending : forall feedback g v,
  length feedback < length (remaining g) ->
  snd (run next g v feedback) = Pending /\
  length (fst (run next g v feedback)) = S (length feedback).
Proof.
  induction feedback as [|b fb IH]; intros g v Hlen.
  - destruct (next_yield g v) as (g' & q & H & P).
    { destruct (remaining g); simpl in *; [lia|congruence]. }
    simpl. rewrite H. split; reflexivity.
  - destruct (next_yield g v) as (g' & q & H & P).
    { destruct (remaining g); simpl in *; [lia|congruence]. }
    assert (L : length fb < length (remaining g')).
    { apply Permutation_length in P. simpl in *. lia. }
    destruct (IH g' (JBool b) L) as [F Q].
    simpl. rewrite H.
    destruct (run next g' (JBool b) fb) as [qs e]. simpl in *.
    split; [exact F|now rewrite Q].
Qed.

End DriverFacts.

(** ** Case analysis on the conditions of a loop body *)

Ltac case_conds :=
  repeat (simpl; match goal with
  | |- context [String.eqb ?a ?b] =>
      is_var a; destruct (String.eqb_spec a b); subst
  | |- context [Nat.leb ?a ?b] =>
      first [is_var a | is_var b]; destruct (Nat.leb_spec a b)
  | |- context [match ?a with 0 => _ | S _ => _ end] =>
      is_var a; destruct a
  end); simpl.

Ltac split_list xs := destruct xs as [|? xs].

Ltac split_tiers es ms hs := split_list es; split_list ms; split_list hs.

(** ** The streak-based generator hands out its pool *)

Lemma adaptive_loop_condition_pool (l : Adaptive.locals) :
  Adaptive.loop_condition l = true <-> Adaptive.pool l <> [].
Proof.
  destruct l as [es ms hs cc cmc cd la].
  unfold Adaptive.loop_condition, Adaptive.pool; simpl.
  split_tiers es ms hs; simpl; split; intro H;
    first [discriminate | reflexivity | now elim H].
Qed.

Lemma adaptive_loop_body_takes (l : Adaptive.locals) :
  Adaptive.pool l <> [] ->
  exists q l', Adaptive.loop_body l = (Some q, l') /\
               Permutation (Adaptive.pool l) (q :: Adaptive.pool l').
Proof.
  destruct l as [es ms hs cc cmc cd la].
  unfold Adaptive.pool; simpl. intros NE.
  destruct la as [|[|]]; unfold Adaptive.loop_body; simpl.
  all: split_tiers es ms hs; try (simpl in NE; congruence).
  all: case_conds.
  all: do 2 eexists; split; [reflexivity|];
    unfold Adaptive.pool; simpl; apply Permutation_sym; perm_front.
Qed.

Lemma adaptive_pool_resume (y : Adaptive.yield_point) (v : JsVal)
    (l : Adaptive.locals) :
  Adaptive.pool (Adaptive.resume y v l) = Adaptive.pool l.
Proof.
  destruct y; simpl; [|reflexivity].
  unfold Adaptive.seed. now destruct (is_true _).
Qed.

Lemma adaptive_while_loop_done (l : Adaptive.locals) :
  Adaptive.pool l = [] ->
  Adaptive.while_loop l = (Adaptive.Completed, IterDone).
Proof.
  intros E. unfold Adaptive.while_loop.
  destruct (Adaptive.loop_condition l) eqn:C; [|reflexivity].
  apply adaptive_loop_condition_pool in C. contradiction.
Qed.

Lemma adaptive_while_loop_yield (l : Adaptive.locals) :
  Adaptive.pool l <> [] ->
  exists q l',
    Adaptive.while_loop l
      = (Adaptive.SuspendedYield Adaptive.YLoop l', IterYield q) /\
    Permutation (Adaptive.pool l) (q :: Adaptive.pool l').
Proof.
  intros NE. unfold Adaptive.while_loop.
  destruct (adaptive_loop_body_takes l NE) as (q & l' & B & P).
  apply adaptive_loop_condition_pool in NE. rewrite NE, B.
  now exists q, l'.
Qed.

Lemma adaptive_next_done (g : Adaptive.gen) (v : JsVal) :
  Adaptive.remaining g = [] ->
  exists g', Adaptive.next g v = (g', IterDone).
Proof.
  destruct g as [qs|y l|]; simpl; intros E.
  - destruct (filterDifficulty "easy" qs) eqn:F.
    + eexists. now apply adaptive_while_loop_done.
    + unfold Adaptive.pool in E; simpl in E. rewrite F in E. discriminate.
  - eexists. apply adaptive_while_loop_done.
    now rewrite adaptive_pool_resume.
  - now eexists.
Qed.

Lemma adaptive_next_yield (g : Adaptive.gen) (v : JsVal) :
  Adaptive.remaining g <> [] ->
  exists g' q, Adaptive.next g v = (g', IterYield q) /\
    Permutation (Adaptive.remaining g) (q :: Adaptive.remaining g').
Proof.
  destruct g as [qs|y l|]; simpl; intros NE.
  - destruct (filterDifficulty "easy" qs) as [|e es] eqn:F.
    + destruct (adaptive_while_loop_yield (Adaptive.init qs) NE)
        as (q & l' & W & P).
      exists (Adaptive.SuspendedYield Adaptive.YLoop l'), q. now split.
    + do 2 eexists. split; [reflexivity|].
      unfold Adaptive.pool; simpl. rewrite F. apply Permutation_refl.
  - rewrite <- (adaptive_pool_resume y v l) in NE.
    destruct (adaptive_while_loop_yield _ NE) as (q & l' & W & P).
    exists (Adaptive.SuspendedYield Adaptive.YLoop l'), q.
    split; [exact W|]. simpl. now rewrite <- (adaptive_pool_resume y v l).
  - congruence.
Qed.

Lemma adaptive_next_no_throw (g : Adaptive.gen) (v : JsVal) (name : string) :
  snd (Adaptive.next g v) <> IterThrow name.
Proof.
  destruct (Adaptive.remaining g) as [|x xs] eqn:E.
  - destruct (adaptive_next_done g v E) as [g' H]. now rewrite H.
  - destruct (adaptive_next_yield g v) as (g' & q & H & _); [congruence|].
    now rewrite H.
Qed.

(** ** The last-answer generator hands out its pool *)

Lemma app_loop_condition_pool (l : App.locals) :
  App.loop_condition l = true <-> App.pool l <> [].
Proof.
  destruct l as [es ms hs la].
  unfold App.loop_condition, App.pool; simpl.
  split_tiers es ms hs; simpl; split; intro H;
    first [discriminate | reflexivity | now elim H].
Qed.

Lemma app_loop_body_takes (l : App.locals) :
  App.pool l <> [] ->
  exists q l', App.loop_body l = (Some q, l') /\
               Permutation (App.pool l) (q :: App.pool l').
Proof.
  destruct l as [es ms hs la].
  unfold App.pool; simpl. intros NE.
  destruct la as [|[|]]; unfold App.loop_body; simpl.
  all: split_tiers es ms hs; try (simpl in NE; congruence).
  all: do 2 eexists; split; [reflexivity|];
    unfold App.pool; simpl; apply Permutation_sym; perm_front.
Qed.

Lemma app_while_loop_done (l : App.locals) :
  App.pool l = [] -> App.while_loop l = (App.Completed, IterDone).
Proof.
  intros E. unfold App.while_loop.
  destruct (App.loop_condition l) eqn:C; [|reflexivity].
  apply app_loop_condition_pool in C. contradiction.
Qed.

Lemma app_while_loop_yield (l : App.locals) :
  App.pool l <> [] ->
  exists q l',
    App.while_loop l = (App.SuspendedYield l', IterYield q) /\
    Permutation (App.pool l) (q :: App.pool l').
Proof.
  intros NE. unfold App.while_loop.
  destruct (app_loop_body_takes l NE) as (q & l' & B & P).
  apply app_loop_condition_pool in NE. rewrite NE, B.
  now exists q, l'.
Qed.

Lemma app_next_done (g : App.gen) (v : JsVal) :
  App.remaining g = [] -> exists g', App.next g v = (g', IterDone).
Proof.
  destruct g as [qs|l|]; simpl; intros E.
  - destruct (filterDifficulty "medium" qs) eqn:F.
    + eexists. now apply app_while_loop_done.
    + unfold App.pool in E; simpl in E. rewrite F in E.
      destruct (filterDifficulty "easy" qs); discriminate.
  - eexists. now apply app_while_loop_done.
  - now eexists.
Qed.

Lemma app_next_yield (g : App.gen) (v : JsVal) :
  App.remaining g <> [] ->
  exists g' q, App.next g v = (g', IterYield q) /\
    Permutation (App.remaining g) (q :: App.remaining g').
Proof.
  destruct g as [qs|l|]; simpl; intros NE.
  - destruct (filterDifficulty "medium" qs) as [|m ms] eqn:F.
    + destruct (app_while_loop_yield (App.init qs) NE) as (q & l' & W & P).
      exists (App.SuspendedYield l'), q. now split.
    + do 2 eexists. split; [reflexivity|].
      unfold App.pool; simpl. rewrite F.
      apply Permutation_sym. perm_front.
  - destruct (app_while_loop_yield (App.set_lastCorrect v l) NE)
      as (q & l' & W & P).
    exists (App.SuspendedYield l'), q. now split.
  - congruence.
Qed.

(** ** The scorer *)

(** C9: a correct answer adds one to [correctAnswers] and one to
    [score]; an incorrect answer adds one to [incorrectAnswers] and
    leaves [score] alone; neither touches the other counters.  Handling
    a click moves [questionIndex] forward by exactly one whatever the
    outcome, with the counters as [checkAnswer] leaves them.  [isEnded]
    holds exactly when [questionIndex] equals the number of questions. *)
Theorem scorer_behaviour (q : Quiz.t) :
  (let q' := fst (Quiz.checkAnswer q true) in
   Quiz.correctAnswers q' = Quiz.correctAnswers q + 1 /\
   Quiz.score q' = Quiz.score q + 1 /\
   Quiz.incorrectAnswers q' = Quiz.incorrectAnswers q /\
   Quiz.questionIndex q' = Quiz.questionIndex q /\
   Quiz.questions q' = Quiz.questions q) /\
  (let q' := fst (Quiz.checkAnswer q false) in
   Quiz.incorrectAnswers q' = Quiz.incorrectAnswers q + 1 /\
   Quiz.score q' = Quiz.score q /\
   Quiz.correctAnswers q' = Quiz.correctAnswers q /\
   Quiz.questionIndex q' = Quiz.questionIndex q /\
   Quiz.questions q' = Quiz.questions q) /\
  (forall b, snd (Quiz.checkAnswer q b) = b) /\
  (forall cur clicked,
     let r := Quiz.handleAnswerClick q cur clicked in
     let b := isCorrectAnswer cur clicked in
     snd r = b /\
     Quiz.questionIndex (fst r) = Quiz.questionIndex q + 1 /\
     Quiz.score (fst r) = Quiz.score q + (if b then 1 else 0) /\
     Quiz.correctAnswers (fst r)
       = Quiz.correctAnswers q + (if b then 1 else 0) /\
     Quiz.incorrectAnswers (fst r)
       = Quiz.incorrectAnswers q + (if b then 0 else 1) /\
     Quiz.questions (fst r) = Quiz.questions q) /\
  (Quiz.isEnded q = true
   <-> Quiz.questionIndex q = length (Quiz.questions q)).
Proof.
  repeat split; simpl; try lia.
  - now destruct b.
  - unfold Quiz.handleAnswerClick.
    destruct (isCorrectAnswer cur clicked); reflexivity.
  - unfold Quiz.handleAnswerClick.
    destruct (isCorrectAnswer cur clicked); simpl; lia.
  - unfold Quiz.handleAnswerClick.
    destruct (isCorrectAnswer cur clicked); simpl; lia.
  - unfold Quiz.handleAnswerClick.
    destruct (isCorrectAnswer cur clicked); simpl; lia.
  - unfold Quiz.handleAnswerClick.
    destruct (isCorrectAnswer cur clicked); simpl; lia.
  - unfold Quiz.handleAnswerClick.
    destruct (isCorrectAnswer cur clicked); reflexivity.
  - unfold Quiz.isEnded. apply Nat.eqb_eq.
  - unfold Quiz.isEnded. apply Nat.eqb_eq.
Qed.

(** ** Full sessions *)

Lemma adaptive_initial_pool (questions : list Question) :
  Permutation (Adaptive.remaining (Adaptive.questionGenerator questions))
              (filter tagged questions).
Proof. apply filter_three_perm. Qed.

Lemma app_initial_pool (questions : list Question) :
  Permutation (App.remaining (App.questionGenerator questions))
              (filter tagged questions).
Proof. apply filter_three_perm. Qed.

Lemma adaptive_full_run (questions : list Question) (feedback : list bool) :
  length (filter tagged questions) <= length feedback ->
  let r := run Adaptive.next (Adaptive.questionGenerator questions)
             JNull feedback in
  snd r = Finished /\ Permutation (fst r) (filter tagged questions).
Proof.
  intros L.
  destruct (run_full _ Adaptive.next Adaptive.remaining
              adaptive_next_done adaptive_next_yield feedback
              (Adaptive.questionGenerator questions) JNull) as [F P].
  - now rewrite (Permutation_length (adaptive_initial_pool questions)).
  - split; [exact F|].
    eapply perm_trans; [exact P|apply adaptive_initial_pool].
Qed.

Lemma app_full_run (questions : list Question) (feedback : list bool) :
  length (filter tagged questions) <= length feedback ->
  let r := run App.next (App.questionGenerator questions) JNull feedback in
  snd r = Finished /\ Permutation (fst r) (filter tagged questions).
Proof.
  intros L.
  destruct (run_full _ App.next App.remaining
              app_next_done app_next_yield feedback
              (App.questionGenerator questions) JNull) as [F P].
  - now rewrite (Permutation_length (app_initial_pool questions)).
  - split; [exact F|].
    eapply perm_trans; [exact P|apply app_initial_pool].
Qed.

(** C1: when every input question carries one of the three labels and
    an answer is supplied for each question, the session runs from start
    to completion and the questions it displays are, as a multiset,
    exactly the input: none twice, none left out, whatever the answers.
    This holds for both versions of the generator. *)
Theorem conservation (questions : list Question) (feedback : list bool) :
  Forall (fun q => tagged q = true) questions ->
  length questions <= length feedback ->
  (let r := run Adaptive.next (Adaptive.questionGenerator questions)
              JNull feedback in
   snd r = Finished /\ Permutation (fst r) questions) /\
  (let r := run App.next (App.questionGenerator questions)
              JNull feedback in
   snd r = Finished /\ Permutation (fst r) questions).
Proof.
  intros T L. apply filter_tagged_all in T.
  split.
  - pose proof (adaptive_full_run questions feedback) as H.
    rewrite T in H. exact (H L).
  - pose proof (app_full_run questions feedback) as H.
    rewrite T in H. exact (H L).
Qed.

Lemma conservation_witness :
  Forall (fun q => tagged q = true) sample_pool /\
  length sample_pool <= length [true; false; true; true; false] /\
  (let r := run Adaptive.next (Adaptive.questionGenerator sample_pool)
              JNull [true; false; true; true; false] in
   snd r = Finished /\ Permutation (fst r) sample_pool) /\
  (let r := run App.next (App.questionGenerator sample_pool)
              JNull [true; false; true; true; false] in
   snd r = Finished /\ Permutation (fst r) sample_pool).
Proof.
  assert (T : Forall (fun q => tagged q = true) sample_pool)
    by (repeat constructor).
  assert (L : length sample_pool <= length [true; false; true; true; false])
    by (simpl; lia).
  split; [exact T|]. split; [exact L|].
  exact (conservation sample_pool [true; false; true; true; false] T L).
Defined.

Lemma adaptive_short_run (questions : list Question) (feedback : list bool) :
  length feedback < length (filter tagged questions) ->
  let r := run Adaptive.next (Adaptive.questionGenerator questions)
             JNull feedback in
  snd r = Pending /\ length (fst r) = S (length feedback).
Proof.
  intros L.
  apply (run_pending _ Adaptive.next Adaptive.remaining adaptive_next_yield).
  now rewrite (Permutation_length (adaptive_initial_pool questions)).
Qed.

Lemma app_short_run (questions : list Question) (feedback : list bool) :
  length feedback < length (filter tagged questions) ->
  let r := run App.next (App.questionGenerator questions) JNull feedback in
  snd r = Pending /\ length (fst r) = S (length feedback).
Proof.
  intros L.
  apply (run_pending _ App.next App.remaining app_next_yield).
  now rewrite (Permutation_length (app_initial_pool questions)).
Qed.

(** C2: for a pool of N questions that all carry one of the three
    labels, a session given at least N answers displays exactly N
    questions and then completes; given fewer answers it is still
    waiting, one question ahead of the answers.  A call of [next]
    reports [done] exactly when the three arrays are empty: never while a
    question remains, and always once none does.  Both versions of the
    generator behave so. *)
Theorem termination (questions : list Question) :
  Forall (fun q => tagged q = true) questions ->
  (forall feedback, length questions <= length feedback ->
     (let r := run Adaptive.next (Adaptive.questionGenerator questions)
                 JNull feedback in
      snd r = Finished /\ length (fst r) = length questions) /\
     (let r := run App.next (App.questionGenerator questions)
                 JNull feedback in
      snd r = Finished /\ length (fst r) = length questions)) /\
  (forall feedback, length feedback < length questions ->
     (let r := run Adaptive.next (Adaptive.questionGenerator questions)
                 JNull feedback in
      snd r = Pending /\ length (fst r) = S (length feedback)) /\
     (let r := run App.next (App.questionGenerator questions)
                 JNull feedback in
      snd r = Pending /\ length (fst r) = S (length feedback))) /\
  (forall g v, snd (Adaptive.next g v) = IterDone
               <-> Adaptive.remaining g = []) /\
  (forall g v, snd (App.next g v) = IterDone <-> App.remaining g = []).
Proof.
  intros T. apply filter_tagged_all in T.
  split; [|split; [|split]].
  - intros feedback L. split.
    + pose proof (adaptive_full_run questions feedback) as H.
      rewrite T in H. destruct (H L) as [F P].
      split; [exact F|exact (Permutation_length P)].
    + pose proof (app_full_run questions feedback) as H.
      rewrite T in H. destruct (H L) as [F P].
      split; [exact F|exact (Permutation_length P)].
  - intros feedback L. split.
    + pose proof (adaptive_short_run questions feedback) as H.
      rewrite T in H. exact (H L).
    + pose proof (app_short_run questions feedback) as H.
      rewrite T in H. exact (H L).
  - intros g v. split.
    + intros D. destruct (Adaptive.remaining g) as [|x xs] eqn:E;
        [reflexivity|].
      destruct (adaptive_next_yield g v) as (g' & q & H & _);
        [congruence|].
      rewrite H in D. discriminate.
    + intros E. destruct (adaptive_next_done g v E) as [g' H].
      now rewrite H.
  - intros g v. split.
    + intros D. destruct (App.remaining g) as [|x xs] eqn:E;
        [reflexivity|].
      destruct (app_next_yield g v) as (g' & q & H & _); [congruence|].
      rewrite H in D. discriminate.
    + intros E. destruct (app_next_done g v E) as [g' H].
      now rewrite H.
Qed.

Lemma termination_witness :
  Forall (fun q => tagged q = true) sample_pool /\
  (let r := run Adaptive.next (Adaptive.questionGenerator sample_pool)
              JNull [false; true; true; true; true] in
   snd r = Finished /\ length (fst r) = 5) /\
  (let r := run App.next (App.questionGenerator sample_pool)
              JNull [false; true] in
   snd r = Pending /\ length (fst r) = 3).
Proof.
  assert (T : Forall (fun q => tagged q = true) sample_pool)
    by (repeat constructor).
  destruct (termination sample_pool T) as (Full & Short & _).
  split; [exact T|]. split.
  - apply (Full [false; true; true; true; true]). simpl; lia.
  - apply (Short [false; true]). simpl; lia.
Defined.

(** ** Questions without a tier label *)

Lemma tagged_spec (q : Question) :
  tagged q = true <->
  difficulty q = "easy"%string \/ difficulty q = "medium"%string
  \/ difficulty q = "hard"%string.
Proof.
  unfold tagged.
  destruct (String.eqb_spec (difficulty q) "easy");
    destruct (String.eqb_spec (difficulty q) "medium");
    destruct (String.eqb_spec (difficulty q) "hard"); simpl;
    split; intros H; auto; try discriminate.
  destruct H as [H|[H|H]]; contradiction.
Qed.

Lemma adaptive_emitted_sub (questions : list Question)
    (feedback : list bool) :
  exists rest,
    Permutation (filter tagged questions)
      (fst (run Adaptive.next (Adaptive.questionGenerator questions)
              JNull feedback) ++ rest).
Proof.
  destruct (run_sub _ Adaptive.next Adaptive.remaining
              adaptive_next_done adaptive_next_yield feedback
              (Adaptive.questionGenerator questions) JNull) as [rest P].
  exists rest. eapply perm_trans; [|exact P].
  apply Permutation_sym, adaptive_initial_pool.
Qed.

Lemma app_emitted_sub (questions : list Question) (feedback : list bool) :
  exists rest,
    Permutation (filter tagged questions)
      (fst (run App.next (App.questionGenerator questions)
              JNull feedback) ++ rest).
Proof.
  destruct (run_sub _ App.next App.remaining
              app_next_done app_next_yield feedback
              (App.questionGenerator questions) JNull) as [rest P].
  exists rest. eapply perm_trans; [|exact P].
  apply Permutation_sym, app_initial_pool.
Qed.

Lemma sub_of_filter_tagged (questions emitted rest : list Question) :
  Permutation (filter tagged questions) (emitted ++ rest) ->
  (forall q, In q emitted -> tagged q = true) /\
  (forall q, In q questions -> tagged q = false ->
     ~ In q emitted /\ length emitted < length questions /\
     ~ Permutation emitted questions).
Proof.
  intros P.
  assert (A : forall q, In q emitted -> tagged q = true).
  { intros q I.
    assert (I' : In q (filter tagged questions)).
    { eapply Permutation_in; [apply Permutation_sym; exact P|].
      apply in_or_app. now left. }
    apply filter_In in I'. tauto. }
  split; [exact A|].
  intros q I U.
  assert (N : ~ In q emitted).
  { intros I'. apply A in I'. congruence. }
  split; [exact N|].
  assert (L : length emitted < length questions).
  { pose proof (filter_tagged_short questions q I U) as S.
    apply Permutation_length in P. rewrite length_app in P. lia. }
  split; [exact L|].
  intros Q. apply Permutation_length in Q. lia.
Qed.

(** C10: in any session, of either generator and under any answers,
    every displayed question carries the label easy, medium or hard.  An
    input question with any other label is in none of the three arrays
    after the initial filters and is never displayed; an input that
    holds such a question therefore yields fewer questions than it has,
    and the displayed questions are not the input multiset. *)
Theorem tier_tag_precondition (questions : list Question)
    (feedback : list bool) :
  let a := fst (run Adaptive.next (Adaptive.questionGenerator questions)
                  JNull feedback) in
  let b := fst (run App.next (App.questionGenerator questions)
                  JNull feedback) in
  (forall q, In q a \/ In q b ->
     difficulty q = "easy"%string \/ difficulty q = "medium"%string
     \/ difficulty q = "hard"%string) /\
  (forall q, In q questions ->
     difficulty q <> "easy"%string -> difficulty q <> "medium"%string ->
     difficulty q <> "hard"%string ->
     ~ In q (Adaptive.pool (Adaptive.init questions)) /\
     ~ In q (App.pool (App.init questions)) /\
     ~ In q a /\ ~ In q b /\
     length a < length questions /\ length b < length questions /\
     ~ Permutation a questions /\ ~ Permutation b questions).
Proof.
  intros a b.
  destruct (adaptive_emitted_sub questions feedback) as [ra Pa].
  destruct (app_emitted_sub questions feedback) as [rb Pb].
  destruct (sub_of_filter_tagged _ _ _ Pa) as [Ta Ua].
  destruct (sub_of_filter_tagged _ _ _ Pb) as [Tb Ub].
  fold a in Ta, Ua. fold b in Tb, Ub.
  split.
  - intros q [I|I]; apply tagged_spec; auto.
  - intros q I He Hm Hh.
    assert (U : tagged q = false).
    { destruct (tagged q) eqn:T; [|reflexivity].
      apply tagged_spec in T. tauto. }
    destruct (Ua q I U) as (A1 & A2 & A3).
    destruct (Ub q I U) as (B1 & B2 & B3).
    assert (NP : ~ In q (filter tagged questions)).
    { intros F. apply filter_In in F. destruct F as [_ F]. congruence. }
    repeat split; auto.
    + intros F. apply NP.
      eapply Permutation_in; [apply adaptive_initial_pool|exact F].
    + intros F. apply NP.
      eapply Permutation_in; [apply app_initial_pool|exact F].
Qed.

(** ** The empty pool *)

(** C8, the claim fails: on the empty input the first [next] does not
    raise [EmptyPoolError]; it returns [done]. *)
Lemma empty_pool_returns_done :
  Adaptive.next (Adaptive.questionGenerator []) JNull
    = (Adaptive.Completed, IterDone) /\
  snd (Adaptive.next (Adaptive.questionGenerator []) JNull)
    <> IterThrow "EmptyPoolError".
Proof. split; [reflexivity|discriminate]. Qed.

(** C8, as the code has it: building a quiz and a generator from an
    empty input raises nothing (the quiz has no question and counts as
    ended), and the first request on an empty pool completes at once:
    [done], no question, no error, in either version of the generator. *)
Theorem empty_pool_completes (v : JsVal) (feedback : list bool) :
  Quiz.isEnded (Quiz.new []) = true /\
  Adaptive.next (Adaptive.questionGenerator []) v
    = (Adaptive.Completed, IterDone) /\
  App.next (App.questionGenerator []) v = (App.Completed, IterDone) /\
  run Adaptive.next (Adaptive.questionGenerator []) v feedback
    = ([], Finished) /\
  run App.next (App.questionGenerator []) v feedback = ([], Finished).
Proof.
  split; [reflexivity|]. split; [reflexivity|]. split; [reflexivity|].
  split; destruct feedback; reflexivity.
Qed.

(** ** The canonical example *)

(** C3, evaluated: on the pool E1, E2, M1, M2, H1 with three correct
    answers the generator displays E1, M1, M2, E2.  The first correct
    answer is counted twice, once by the seeding and once by the loop,
    so the streak is already 2 when the second question is chosen and
    the second question is the medium M1. *)
Theorem canonical_example_order :
  run Adaptive.next (Adaptive.questionGenerator sample_pool) JNull
      [true; true; true]
    = ([E1; M1; M2; E2], Pending) /\
  (let (g1, _) := Adaptive.next (Adaptive.questionGenerator sample_pool)
                    JNull in
   Adaptive.next g1 (JBool true)
     = (Adaptive.SuspendedYield Adaptive.YLoop
          {| Adaptive.easy := [E2]; Adaptive.medium := [M2];
             Adaptive.hard := [H1];
             Adaptive.consecutiveCorrect := 2;
             Adaptive.consecutiveMediumCorrect := 0;
             Adaptive.currentDifficulty := "medium";
             Adaptive.lastAnswer := JBool true |},
        IterYield M1)).
Proof. split; reflexivity. Qed.

(** ** The controller, one answer at a time *)

Ltac run_next :=
  unfold Adaptive.next, Adaptive.while_loop, Adaptive.loop_condition,
    Adaptive.loop_body, Adaptive.resume, Adaptive.seed;
  simpl.

Ltac taken H :=
  simpl in H; first [discriminate H | injection H as <- <- <- <-].

(** C4: the generator stands at a [yield] with the tier at easy, it is
    resumed with a correct answer, and the streak counted for that
    answer is at least 2.  If the medium array is not empty the tier
    becomes medium, the medium streak is set to 0 and the front medium
    question is displayed.  If it is empty the tier stays easy and the
    question is taken from easy, else from hard. *)
Theorem promotion_easy_to_medium (y : Adaptive.yield_point)
    (l : Adaptive.locals) :
  Adaptive.currentDifficulty l = "easy"%string ->
  let streak :=
    S (Adaptive.consecutiveCorrect (Adaptive.resume y (JBool true) l)) in
  2 <= streak ->
  (forall m ms, Adaptive.medium l = m :: ms ->
     Adaptive.next (Adaptive.SuspendedYield y l) (JBool true)
       = (Adaptive.SuspendedYield Adaptive.YLoop
            {| Adaptive.easy := Adaptive.easy l;
               Adaptive.medium := ms;
               Adaptive.hard := Adaptive.hard l;
               Adaptive.consecutiveCorrect := streak;
               Adaptive.consecutiveMediumCorrect := 0;
               Adaptive.currentDifficulty := "medium";
               Adaptive.lastAnswer := JBool true |},
          IterYield m)) /\
  (forall q e' m' h', Adaptive.medium l = [] ->
     take_in_order [TEasy; THard]
       (Adaptive.easy l) (Adaptive.medium l) (Adaptive.hard l)
       = Some (q, (e', m', h')) ->
     Adaptive.next (Adaptive.SuspendedYield y l) (JBool true)
       = (Adaptive.SuspendedYield Adaptive.YLoop
            {| Adaptive.easy := e';
               Adaptive.medium := m';
               Adaptive.hard := h';
               Adaptive.consecutiveCorrect := streak;
               Adaptive.consecutiveMediumCorrect :=
                 Adaptive.consecutiveMediumCorrect l;
               Adaptive.currentDifficulty := "easy";
               Adaptive.lastAnswer := JBool true |},
          IterYield q)).
Proof.
  intros E streak S2. destruct l as [es ms hs cc cmc cd la].
  simpl in E; subst cd. subst streak. split.
  - intros m ms' M. simpl in M; subst ms.
    destruct y; run_next; split_tiers es ms' hs; case_conds;
      first [reflexivity | simpl in S2; lia].
  - intros q e' m' h' M T. simpl in M; subst ms.
    destruct y; run_next; split_list es; split_list hs; taken T;
      case_conds; first [reflexivity | simpl in S2; lia].
Qed.

Lemma promotion_easy_to_medium_witness :
  let l := Adaptive.mkLocals [E2] [M1; M2] [H1] 1 0 "easy" (JBool true) in
  Adaptive.currentDifficulty l = "easy"%string /\
  2 <= S (Adaptive.consecutiveCorrect
            (Adaptive.resume Adaptive.YLoop (JBool true) l)) /\
  Adaptive.next (Adaptive.SuspendedYield Adaptive.YLoop l) (JBool true)
  = (Adaptive.SuspendedYield Adaptive.YLoop
       (Adaptive.mkLocals [E2] [M2] [H1] 2 0 "medium" (JBool true)),
     IterYield M1).
Proof.
  intros l.
  assert (S2 : 2 <= S (Adaptive.consecutiveCorrect
                         (Adaptive.resume Adaptive.YLoop (JBool true) l)))
    by (simpl; lia).
  split; [reflexivity|]. split; [exact S2|].
  exact (proj1 (promotion_easy_to_medium Adaptive.YLoop l eq_refl S2)
           M1 [M2] eq_refl).
Defined.

(** C5: the generator stands at a [yield] with the tier at medium, it is
    resumed with a correct answer, and the medium streak counted for
    that answer is at least 3.  If the hard array is not empty the tier
    becomes hard and the front hard question is displayed.  If it is
    empty the tier stays medium and the question is taken from medium,
    else from easy. *)
Theorem promotion_medium_to_hard (y : Adaptive.yield_point)
    (l : Adaptive.locals) :
  Adaptive.currentDifficulty l = "medium"%string ->
  let streak :=
    S (Adaptive.consecutiveCorrect (Adaptive.resume y (JBool true) l)) in
  let mediumStreak := S (Adaptive.consecutiveMediumCorrect l) in
  3 <= mediumStreak ->
  (forall h hs, Adaptive.hard l = h :: hs ->
     Adaptive.next (Adaptive.SuspendedYield y l) (JBool true)
       = (Adaptive.SuspendedYield Adaptive.YLoop
            {| Adaptive.easy := Adaptive.easy l;
               Adaptive.medium := Adaptive.medium l;
               Adaptive.hard := hs;
               Adaptive.consecutiveCorrect := streak;
               Adaptive.consecutiveMediumCorrect := mediumStreak;
               Adaptive.currentDifficulty := "hard";
               Adaptive.lastAnswer := JBool true |},
          IterYield h)) /\
  (forall q e' m' h', Adaptive.hard l = [] ->
     take_in_order [TMedium; TEasy]
       (Adaptive.easy l) (Adaptive.medium l) (Adaptive.hard l)
       = Some (q, (e', m', h')) ->
     Adaptive.next (Adaptive.SuspendedYield y l) (JBool true)
       = (Adaptive.SuspendedYield Adaptive.YLoop
            {| Adaptive.easy := e';
               Adaptive.medium := m';
               Adaptive.hard := h';
               Adaptive.consecutiveCorrect := streak;
               Adaptive.consecutiveMediumCorrect := mediumStreak;
               Adaptive.currentDifficulty := "medium";
               Adaptive.lastAnswer := JBool true |},
          IterYield q)).
Proof.
  intros E streak mediumStreak S3. destruct l as [es ms hs cc cmc cd la].
  simpl in E; subst cd. subst streak mediumStreak. split.
  - intros h hs' H. simpl in H; subst hs.
    destruct y; run_next; split_tiers es ms hs'; case_conds;
      first [reflexivity | simpl in S3; lia].
  - intros q e' m' h' H T. simpl in H; subst hs.
    destruct y; run_next; split_list es; split_list ms; taken T;
      case_conds; first [reflexivity | simpl in S3; lia].
Qed.

Lemma promotion_medium_to_hard_witness :
  let l := Adaptive.mkLocals [E2] [M2] [H1] 4 2 "medium" (JBool true) in
  Adaptive.currentDifficulty l = "medium"%string /\
  3 <= S (Adaptive.consecutiveMediumCorrect l) /\
  Adaptive.next (Adaptive.SuspendedYield Adaptive.YLoop l) (JBool true)
  = (Adaptive.SuspendedYield Adaptive.YLoop
       (Adaptive.mkLocals [E2] [M2] [] 5 3 "hard" (JBool true)),
     IterYield H1).
Proof.
  intros l.
  assert (S3 : 3 <= S (Adaptive.consecutiveMediumCorrect l))
    by (simpl; lia).
  split; [reflexivity|]. split; [exact S3|].
  exact (proj1 (promotion_medium_to_hard Adaptive.YLoop l eq_refl S3)
           H1 [] eq_refl).
Defined.

(** C6: the generator stands at a [yield] and is resumed with an
    incorrect answer.  The streak becomes 0.  From hard the tier becomes
    medium (not easy), the medium streak becomes 0 and the question is
    taken from medium, else easy, else hard.  From medium the tier
    becomes easy, the medium streak becomes 0 and the question is taken
    from easy, else medium, else hard.  At easy the tier stays easy, the
    medium streak is kept and the question is taken from easy, else
    medium, else hard. *)
Theorem demotion_single_step (y : Adaptive.yield_point)
    (l : Adaptive.locals) (q : Question) (e' m' h' : list Question) :
  (Adaptive.currentDifficulty l = "hard"%string ->
   take_in_order [TMedium; TEasy; THard]
     (Adaptive.easy l) (Adaptive.medium l) (Adaptive.hard l)
     = Some (q, (e', m', h')) ->
   Adaptive.next (Adaptive.SuspendedYield y l) (JBool false)
     = (Adaptive.SuspendedYield Adaptive.YLoop
          {| Adaptive.easy := e'; Adaptive.medium := m';
             Adaptive.hard := h';
             Adaptive.consecutiveCorrect := 0;
             Adaptive.consecutiveMediumCorrect := 0;
             Adaptive.currentDifficulty := "medium";
             Adaptive.lastAnswer := JBool false |},
        IterYield q)) /\
  (Adaptive.currentDifficulty l = "medium"%string ->
   take_in_order [TEasy; TMedium; THard]
     (Adaptive.easy l) (Adaptive.medium l) (Adaptive.hard l)
     = Some (q, (e', m', h')) ->
   Adaptive.next (Adaptive.SuspendedYield y l) (JBool false)
     = (Adaptive.SuspendedYield Adaptive.YLoop
          {| Adaptive.easy := e'; Adaptive.medium := m';
             Adaptive.hard := h';
             Adaptive.consecutiveCorrect := 0;
             Adaptive.consecutiveMediumCorrect := 0;
             Adaptive.currentDifficulty := "easy";
             Adaptive.lastAnswer := JBool false |},
        IterYield q)) /\
  (Adaptive.currentDifficulty l = "easy"%string ->
   take_in_order [TEasy; TMedium; THard]
     (Adaptive.easy l) (Adaptive.medium l) (Adaptive.hard l)
     = Some (q, (e', m', h')) ->
   Adaptive.next (Adaptive.SuspendedYield y l) (JBool false)
     = (Adaptive.SuspendedYield Adaptive.YLoop
          {| Adaptive.easy := e'; Adaptive.medium := m';
             Adaptive.hard := h';
             Adaptive.consecutiveCorrect := 0;
             Adaptive.consecutiveMediumCorrect :=
               Adaptive.consecutiveMediumCorrect l;
             Adaptive.currentDifficulty := "easy";
             Adaptive.lastAnswer := JBool false |},
        IterYield q)).
Proof.
  destruct l as [es ms hs cc cmc cd la].
  repeat split; intros E T; simpl in E; subst cd;
    destruct y; run_next; split_tiers es ms hs; taken T; reflexivity.
Qed.

Lemma demotion_single_step_witness :
  let l := Adaptive.mkLocals [E2] [M2] [] 5 3 "hard" (JBool true) in
  Adaptive.currentDifficulty l = "hard"%string /\
  take_in_order [TMedium; TEasy; THard]
    (Adaptive.easy l) (Adaptive.medium l) (Adaptive.hard l)
    = Some (M2, ([E2], [], [])) /\
  Adaptive.next (Adaptive.SuspendedYield Adaptive.YLoop l) (JBool false)
  = (Adaptive.SuspendedYield Adaptive.YLoop
       (Adaptive.mkLocals [E2] [] [] 0 0 "medium" (JBool false)),
     IterYield M2).
Proof.
  intros l. split; [reflexivity|]. split; [reflexivity|].
  exact (proj1 (demotion_single_step Adaptive.YLoop l M2 [E2] [] [])
           eq_refl eq_refl).
Defined.

(** ** The opening move *)

Lemma find_filter_head (label : string) (qs : list Question)
    (e : Question) (es : list Question) :
  filterDifficulty label qs = e :: es ->
  find (fun q => String.eqb (difficulty q) label) qs = Some e.
Proof.
  unfold filterDifficulty.
  induction qs as [|x qs IH]; simpl; [discriminate|].
  destruct (String.eqb (difficulty x) label); [|exact IH].
  now intros [= -> _].
Qed.

(** C7: when the input holds an easy question, the first call displays
    the first easy question of the input and suspends at the opening
    [yield] with the tier at easy and both streaks at 0; resumed with
    the first answer, the loop is entered with the streak seeded to 1
    for a correct and 0 for an incorrect answer, the tier still easy.
    When the input holds no easy question, the first call takes from
    easy, else medium, else hard, and suspends at the [yield] of the
    loop, where no seeding follows, with the tier at easy and both
    streaks at 0. *)
Theorem opening_move (questions : list Question) (v : JsVal) :
  (forall e es, filterDifficulty "easy" questions = e :: es ->
     let l := {| Adaptive.easy := es;
                 Adaptive.medium := filterDifficulty "medium" questions;
                 Adaptive.hard := filterDifficulty "hard" questions;
                 Adaptive.consecutiveCorrect := 0;
                 Adaptive.consecutiveMediumCorrect := 0;
                 Adaptive.currentDifficulty := "easy";
                 Adaptive.lastAnswer := JNull |} in
     find (fun q => String.eqb (difficulty q) "easy") questions = Some e /\
     Adaptive.next (Adaptive.questionGenerator questions) v
       = (Adaptive.SuspendedYield Adaptive.YSeed l, IterYield e) /\
     (forall b : bool,
        Adaptive.next (Adaptive.SuspendedYield Adaptive.YSeed l) (JBool b)
          = Adaptive.while_loop
              {| Adaptive.easy := es;
                 Adaptive.medium := filterDifficulty "medium" questions;
                 Adaptive.hard := filterDifficulty "hard" questions;
                 Adaptive.consecutiveCorrect := if b then 1 else 0;
                 Adaptive.consecutiveMediumCorrect := 0;
                 Adaptive.currentDifficulty := "easy";
                 Adaptive.lastAnswer := JBool b |})) /\
  (forall q e' m' h', filterDifficulty "easy" questions = [] ->
     take_in_order [TEasy; TMedium; THard]
       (filterDifficulty "easy" questions)
       (filterDifficulty "medium" questions)
       (filterDifficulty "hard" questions)
       = Some (q, (e', m', h')) ->
     Adaptive.next (Adaptive.questionGenerator questions) v
       = (Adaptive.SuspendedYield Adaptive.YLoop
            {| Adaptive.easy := e'; Adaptive.medium := m';
               Adaptive.hard := h';
               Adaptive.consecutiveCorrect := 0;
               Adaptive.consecutiveMediumCorrect := 0;
               Adaptive.currentDifficulty := "easy";
               Adaptive.lastAnswer := JNull |},
          IterYield q)).
Proof.
  split.
  - intros e es F l. split; [exact (find_filter_head _ _ _ _ F)|].
    split.
    + simpl. now rewrite F.
    + intros [|]; reflexivity.
  - intros q e' m' h' F.
    unfold Adaptive.questionGenerator, Adaptive.next, Adaptive.init.
    cbn [Adaptive.easy]. rewrite F.
    generalize (filterDifficulty "medium" questions)
               (filterDifficulty "hard" questions).
    intros ms hs T. split_list ms; split_list hs; taken T; reflexivity.
Qed.

Lemma opening_move_witness :
  (filterDifficulty "easy" sample_pool = [E1; E2] /\
   Adaptive.next (Adaptive.questionGenerator sample_pool) JNull
   = (Adaptive.SuspendedYield Adaptive.YSeed
        (Adaptive.mkLocals [E2] [M1; M2] [H1] 0 0 "easy" JNull),
      IterYield E1)) /\
  (filterDifficulty "easy" [M1; H1] = [] /\
   Adaptive.next (Adaptive.questionGenerator [M1; H1]) JNull
   = (Adaptive.SuspendedYield Adaptive.YLoop
        (Adaptive.mkLocals [] [] [H1] 0 0 "easy" JNull),
      IterYield M1)).
Proof.
  split; (split; [reflexivity|]).
  - exact (proj1 (proj2 (proj1 (opening_move sample_pool JNull)
                           E1 [E2] eq_refl))).
  - exact (proj2 (opening_move [M1; H1] JNull)
             M1 [] [] [H1] eq_refl eq_refl).
Defined.

(** * Further properties of the generators *)

(** ** What one step does to the three arrays *)

Lemma took_length (e m h : list Question) (q : Question)
    (e' m' h' : list Question) :
  took e m h q e' m' h' ->
  length (e ++ m ++ h) = S (length (e' ++ m' ++ h')).
Proof.
  intros [(-> & -> & ->)|[(-> & -> & ->)|(-> & -> & ->)]];
    rewrite ?length_app; simpl; rewrite ?length_app; lia.
Qed.

Lemma took_only (e m h : list Question) (q : Question)
    (e' m' h' : list Question) :
  took e m h q e' m' h' ->
  only "easy" e -> only "medium" m -> only "hard" h ->
  only "easy" e' /\ only "medium" m' /\ only "hard" h'.
Proof.
  unfold only.
  intros [(-> & -> & ->)|[(-> & -> & ->)|(-> & -> & ->)]] He Hm Hh;
    repeat split; try assumption.
  - now inversion He.
  - now inversion Hm.
  - now inversion Hh.
Qed.

Lemma filter_only_same (label : string) (qs : list Question) :
  only label qs -> filterDifficulty label qs = qs.
Proof.
  unfold only, filterDifficulty.
  induction 1 as [|q qs H _ IH]; simpl; [reflexivity|].
  rewrite H, String.eqb_refl. now rewrite IH.
Qed.

Lemma filter_only_other (label other : string) (qs : list Question) :
  only other qs -> other <> label -> filterDifficulty label qs = [].
Proof.
  unfold only, filterDifficulty.
  induction 1 as [|q qs H _ IH]; simpl; intros N; [reflexivity|].
  rewrite H. destruct (String.eqb_spec other label); [contradiction|].
  now apply IH.
Qed.

Lemma filter_only (label other : string) (qs : list Question) :
  only other qs ->
  filterDifficulty label qs = if String.eqb other label then qs else [].
Proof.
  intros H. destruct (String.eqb_spec other label) as [->|N].
  - now apply filter_only_same.
  - now apply filter_only_other with other.
Qed.

Lemma filter_three (label : string) (e m h : list Question) :
  only "easy" e -> only "medium" m -> only "hard" h ->
  filterDifficulty label (e ++ m ++ h)
  = (if String.eqb "easy" label then e else [])
    ++ (if String.eqb "medium" label then m else [])
    ++ (if String.eqb "hard" label then h else []).
Proof.
  intros He Hm Hh. unfold filterDifficulty. rewrite !filter_app.
  fold (filterDifficulty label e). fold (filterDifficulty label m).
  fold (filterDifficulty label h).
  now rewrite (filter_only _ _ _ He), (filter_only _ _ _ Hm),
    (filter_only _ _ _ Hh).
Qed.

Lemma took_filter (label : string) (e m h : list Question) (q : Question)
    (e' m' h' : list Question) :
  took e m h q e' m' h' ->
  only "easy" e -> only "medium" m -> only "hard" h ->
  filterDifficulty label (e ++ m ++ h)
  = filterDifficulty label (q :: e' ++ m' ++ h').
Proof.
  intros T He Hm Hh.
  destruct (took_only _ _ _ _ _ _ _ T He Hm Hh) as (He' & Hm' & Hh').
  rewrite (filter_three label e m h He Hm Hh).
  change (filterDifficulty label (q :: e' ++ m' ++ h'))
    with (filter (fun x => String.eqb (difficulty x) label)
            (q :: e' ++ m' ++ h')).
  cbn [filter].
  change (filter (fun x => String.eqb (difficulty x) label)
            (e' ++ m' ++ h'))
    with (filterDifficulty label (e' ++ m' ++ h')).
  rewrite (filter_three label e' m' h' He' Hm' Hh').
  destruct T as [(-> & -> & ->)|[(-> & -> & ->)|(-> & -> & ->)]].
  - inversion He as [|? ? D _]. rewrite D.
    destruct (String.eqb_spec "easy" label) as [<-|]; reflexivity.
  - inversion Hm as [|? ? D _]. rewrite D.
    destruct (String.eqb_spec "medium" label) as [<-|]; simpl;
      rewrite ?app_nil_r; reflexivity.
  - inversion Hh as [|? ? D _]. rewrite D.
    destruct (String.eqb_spec "hard" label) as [<-|]; simpl;
      rewrite ?app_nil_r; reflexivity.
Qed.

Lemma only_filterDifficulty (label : string) (qs : list Question) :
  only label (filterDifficulty label qs).
Proof.
  unfold only, filterDifficulty. apply Forall_forall.
  intros q I. apply filter_In in I. now apply String.eqb_eq.
Qed.

Lemma filter_filterDifficulty (label other : string)
    (qs : list Question) :
  filterDifficulty label (filterDifficulty other qs)
  = if String.eqb other label then filterDifficulty label qs else [].
Proof.
  rewrite (filter_only label other _ (only_filterDifficulty other qs)).
  now destruct (String.eqb_spec other label) as [->|].
Qed.

(** ** Sessions over a generator that keeps an invariant *)

Section DriverOrder.

Variable G : Type.
Variable next : G -> JsVal -> G * IteratorResult.
Variable remaining : G -> list Question.
Variable Inv : G -> Prop.

Hypothesis step_cases : forall g v, Inv g ->
  match next g v with
  | (g', IterYield q) =>
      Inv g' /\
      length (remaining g) = S (length (remaining g')) /\
      forall label,
        filterDifficulty label (remaining g)
        = filterDifficulty label (q :: remaining g')
  | (g', IterDone) => Inv g' /\ remaining g = [] /\ remaining g' = []
  | (_, IterThrow _) => False
  end.

Lemma run_state_inv : forall feedback g v,
  Inv g -> Inv (run_state next g v feedback).
Proof.
  induction feedback as [|b fb IH]; intros g v I;
    pose proof (step_cases g v I) as C; simpl;
    destruct (next g v) as [g' [q| |name]]; try tauto.
  apply IH. tauto.
Qed.

Lemma run_order_prefix : forall feedback g v label,
  Inv g ->
  filterDifficulty label (remaining g)
  = filterDifficulty label (fst (run next g v feedback))
    ++ filterDifficulty label (remaining (run_state next g v feedback)).
Proof.
  induction feedback as [|b fb IH]; intros g v label I;
    pose proof (step_cases g v I) as C; simpl;
    destruct (next g v) as [g' [q| |name]]; try tauto.
  - destruct C as (_ & _ & C). rewrite C. unfold filterDifficulty. simpl.
    now destruct (String.eqb (difficulty q) label).
  - destruct C as (_ & -> & ->). reflexivity.
  - destruct C as (I' & _ & C). rewrite C.
    specialize (IH g' (JBool b) label I').
    destruct (run next g' (JBool b) fb) as [qs e]. simpl in *.
    unfold filterDifficulty in *. simpl.
    destruct (String.eqb (difficulty q) label); simpl; now rewrite IH.
  - destruct C as (_ & -> & ->). reflexivity.
Qed.

Lemma run_state_full : forall feedback g v,
  Inv g -> length (remaining g) <= length feedback ->
  remaining (run_state next g v feedback) = [].
Proof.
  induction feedback as [|b fb IH]; intros g v I L;
    pose proof (step_cases g v I) as C; simpl;
    destruct (next g v) as [g' [q| |name]]; try tauto.
  - simpl in L. lia.
  - apply IH; [tauto|]. simpl in L. lia.
Qed.

End DriverOrder.

(** ** The streak-based generator keeps its invariant *)

Lemma adaptive_loop_body_took (l l' : Adaptive.locals) (q : Question) :
  Adaptive.loop_body l = (Some q, l') ->
  took (Adaptive.easy l) (Adaptive.medium l) (Adaptive.hard l) q
       (Adaptive.easy l') (Adaptive.medium l') (Adaptive.hard l').
Proof.
  destruct l as [es ms hs cc cmc cd la].
  destruct la as [|[|]]; unfold Adaptive.loop_body; simpl.
  all: split_tiers es ms hs; case_conds; intros H;
    first [discriminate H | injection H as <- <-];
    unfold took; simpl; auto 10.
Qed.

Lemma adaptive_loop_body_counters (l l' : Adaptive.locals)
    (o : option Question) :
  (Adaptive.currentDifficulty l = "easy"%string
   \/ Adaptive.currentDifficulty l = "medium"%string
   \/ Adaptive.currentDifficulty l = "hard"%string) ->
  (Adaptive.currentDifficulty l = "easy"%string ->
   Adaptive.consecutiveMediumCorrect l = 0) ->
  (Adaptive.currentDifficulty l = "hard"%string ->
   3 <= Adaptive.consecutiveMediumCorrect l) ->
  Adaptive.consecutiveMediumCorrect l <= Adaptive.consecutiveCorrect l ->
  Adaptive.loop_body l = (o, l') ->
  (Adaptive.currentDifficulty l' = "easy"%string
   \/ Adaptive.currentDifficulty l' = "medium"%string
   \/ Adaptive.currentDifficulty l' = "hard"%string) /\
  (Adaptive.currentDifficulty l' = "easy"%string ->
   Adaptive.consecutiveMediumCorrect l' = 0) /\
  (Adaptive.currentDifficulty l' = "hard"%string ->
   3 <= Adaptive.consecutiveMediumCorrect l') /\
  Adaptive.consecutiveMediumCorrect l' <= Adaptive.consecutiveCorrect l'.
Proof.
  destruct l as [es ms hs cc cmc cd la]. simpl.
  intros Hcd H0 H3 Hle.
  destruct Hcd as [ -> | [ -> | -> ] ];
    try specialize (H0 eq_refl); try specialize (H3 eq_refl).
  all: destruct la as [|[|]]; unfold Adaptive.loop_body; simpl.
  all: split_tiers es ms hs; case_conds; intros H;
    injection H as <- <-; simpl.
  all: repeat split; try discriminate; try tauto; try lia;
    try (intros _; lia).
Qed.

Lemma adaptive_init_inv (questions : list Question) :
  adaptive_inv (Adaptive.init questions).
Proof.
  unfold adaptive_inv; simpl.
  repeat split; try apply only_filterDifficulty; auto; discriminate.
Qed.

Lemma adaptive_resume_inv (y : Adaptive.yield_point) (v : JsVal)
    (l : Adaptive.locals) :
  adaptive_gen_inv (Adaptive.SuspendedYield y l) ->
  adaptive_inv (Adaptive.resume y v l).
Proof.
  destruct l as [es ms hs cc cmc cd la]. unfold adaptive_inv.
  destruct y; simpl.
  - intros ((He & Hm & Hh & Hcd & H0 & H3 & Hle) & ->).
    specialize (H0 eq_refl). simpl in *.
    unfold Adaptive.seed; destruct v as [|[|]]; simpl;
      repeat split; auto; try discriminate; lia.
  - intros (He & Hm & Hh & Hcd & H0 & H3 & Hle).
    repeat split; auto.
Qed.

Lemma adaptive_while_loop_cases (l : Adaptive.locals) :
  adaptive_inv l ->
  match Adaptive.while_loop l with
  | (g', IterYield q) =>
      adaptive_gen_inv g' /\
      length (Adaptive.pool l) = S (length (Adaptive.remaining g')) /\
      forall label,
        filterDifficulty label (Adaptive.pool l)
        = filterDifficulty label (q :: Adaptive.remaining g')
  | (g', IterDone) =>
      adaptive_gen_inv g' /\ Adaptive.pool l = [] /\
      Adaptive.remaining g' = []
  | (_, IterThrow _) => False
  end.
Proof.
  intros (He & Hm & Hh & Hcd & H0 & H3 & Hle).
  unfold Adaptive.while_loop.
  destruct (Adaptive.loop_condition l) eqn:C.
  - apply adaptive_loop_condition_pool in C.
    destruct (adaptive_loop_body_takes l C) as (q & l' & B & _).
    rewrite B. simpl.
    pose proof (adaptive_loop_body_took _ _ _ B) as T.
    destruct (took_only _ _ _ _ _ _ _ T He Hm Hh) as (He' & Hm' & Hh').
    destruct (adaptive_loop_body_counters _ _ _ Hcd H0 H3 Hle B)
      as (Hcd' & H0' & H3' & Hle').
    split; [unfold adaptive_inv; tauto|]. split.
    + exact (took_length _ _ _ _ _ _ _ T).
    + intros label. exact (took_filter label _ _ _ _ _ _ _ T He Hm Hh).
  - simpl. split; [exact I|]. split; [|reflexivity].
    destruct (Adaptive.pool l) as [|x xs] eqn:E; [reflexivity|].
    assert (N : Adaptive.pool l <> []) by congruence.
    apply adaptive_loop_condition_pool in N. congruence.
Qed.

Lemma adaptive_step_cases (g : Adaptive.gen) (v : JsVal) :
  adaptive_gen_inv g ->
  match Adaptive.next g v with
  | (g', IterYield q) =>
      adaptive_gen_inv g' /\
      length (Adaptive.remaining g) = S (length (Adaptive.remaining g')) /\
      forall label,
        filterDifficulty label (Adaptive.remaining g)
        = filterDifficulty label (q :: Adaptive.remaining g')
  | (g', IterDone) =>
      adaptive_gen_inv g' /\ Adaptive.remaining g = [] /\
      Adaptive.remaining g' = []
  | (_, IterThrow _) => False
  end.
Proof.
  destruct g as [qs|y l|]; intros I.
  - pose proof (adaptive_init_inv qs) as II.
    pose proof (adaptive_while_loop_cases _ II) as W.
    unfold Adaptive.next. cbn [Adaptive.remaining].
    destruct (Adaptive.easy (Adaptive.init qs)) as [|e es] eqn:E;
      [exact W|].
    destruct II as (He & Hm & Hh & Hcd & H0 & H3 & Hle).
    assert (T : took (Adaptive.easy (Adaptive.init qs))
                  (Adaptive.medium (Adaptive.init qs))
                  (Adaptive.hard (Adaptive.init qs)) e es
                  (Adaptive.medium (Adaptive.init qs))
                  (Adaptive.hard (Adaptive.init qs))).
    { left. auto. }
    destruct (took_only _ _ _ _ _ _ _ T He Hm Hh) as (He' & Hm' & Hh').
    split; [|split].
    + simpl. unfold adaptive_inv. simpl. repeat split; auto.
    + exact (took_length _ _ _ _ _ _ _ T).
    + intros label. exact (took_filter label _ _ _ _ _ _ _ T He Hm Hh).
  - pose proof (adaptive_resume_inv y v l I) as R.
    pose proof (adaptive_while_loop_cases _ R) as W.
    unfold Adaptive.next. cbn [Adaptive.remaining].
    rewrite <- (adaptive_pool_resume y v l). exact W.
  - simpl. auto.
Qed.

(** X9: in every state a session of the streak-based generator can
    reach, each of the three arrays holds only questions of its own
    label, [currentDifficulty] is one of the three labels, the medium
    streak is 0 while the difficulty is easy and at least 3 while it is
    hard, and the medium streak never exceeds the streak. *)
Theorem adaptive_reachable_invariant (questions : list Question)
    (feedback : list bool) :
  adaptive_gen_inv
    (run_state Adaptive.next (Adaptive.questionGenerator questions)
       JNull feedback).
Proof.
  apply (run_state_inv _ Adaptive.next Adaptive.remaining adaptive_gen_inv
           adaptive_step_cases).
  exact I.
Qed.

Lemma filter_initial_pool (label : string) (questions : list Question) :
  In label ["easy"%string; "medium"%string; "hard"%string] ->
  filterDifficulty label
    (filterDifficulty "easy" questions ++ filterDifficulty "medium" questions
       ++ filterDifficulty "hard" questions)
  = filterDifficulty label questions.
Proof.
  intros I.
  rewrite (filter_three label _ _ _ (only_filterDifficulty _ _)
             (only_filterDifficulty _ _) (only_filterDifficulty _ _)).
  destruct I as [<-|[<-|[<-|[]]]]; simpl; now rewrite ?app_nil_r.
Qed.

(** X2: in a session of the streak-based generator, the displayed
    questions of each tier come in the order in which the input lists
    them: for each of the three labels they are a prefix of the input
    questions of that label, and all of them once the session has been
    given an answer for every labelled question. *)
Theorem adaptive_fifo_within_tier (questions : list Question)
    (feedback : list bool) (label : string) :
  In label ["easy"%string; "medium"%string; "hard"%string] ->
  let emitted :=
    fst (run Adaptive.next (Adaptive.questionGenerator questions)
           JNull feedback) in
  (exists rest,
     filterDifficulty label questions
     = filterDifficulty label emitted ++ rest) /\
  (length (filter tagged questions) <= length feedback ->
   filterDifficulty label emitted = filterDifficulty label questions).
Proof.
  intros L emitted.
  pose proof (run_order_prefix _ Adaptive.next Adaptive.remaining
                adaptive_gen_inv adaptive_step_cases feedback
                (Adaptive.questionGenerator questions) JNull label I) as P.
  fold emitted in P.
  change (Adaptive.remaining (Adaptive.questionGenerator questions))
    with (filterDifficulty "easy" questions
            ++ filterDifficulty "medium" questions
            ++ filterDifficulty "hard" questions) in P.
  rewrite (filter_initial_pool label questions L) in P.
  split.
  - eexists. exact P.
  - intros F.
    rewrite (run_state_full _ Adaptive.next Adaptive.remaining
               adaptive_gen_inv adaptive_step_cases) in P.
    + simpl in P. now rewrite app_nil_r in P.
    + exact I.
    + now rewrite (Permutation_length (adaptive_initial_pool questions)).
Qed.

Lemma adaptive_fifo_within_tier_witness :
  In "medium"%string ["easy"%string; "medium"%string; "hard"%string] /\
  filterDifficulty "medium"
    (fst (run Adaptive.next (Adaptive.questionGenerator sample_pool)
            JNull [true; false; true; true; false]))
  = [M1; M2].
Proof.
  assert (L : In "medium"%string
                ["easy"%string; "medium"%string; "hard"%string])
    by (simpl; auto).
  split; [exact L|].
  apply (proj2 (adaptive_fifo_within_tier sample_pool
                  [true; false; true; true; false] "medium" L)).
  simpl; lia.
Defined.

Ltac label_facts :=
  unfold only in *;
  repeat match goal with
  | H : Forall _ (_ :: _) |- _ => inversion H; subst; clear H
  end.

(** X8: when the streak-based generator, in a state that keeps its
    invariant, is resumed with a boolean answer and displays a question,
    the question carries the difficulty the generator is then at,
    unless the array of that difficulty is empty: a question of another
    tier is displayed only when the current tier has run out. *)
Theorem adaptive_displays_current_tier (g g' : Adaptive.gen) (b : bool)
    (q : Question) :
  adaptive_gen_inv g ->
  Adaptive.next g (JBool b) = (g', IterYield q) ->
  exists y l',
    g' = Adaptive.SuspendedYield y l' /\
    (difficulty q = Adaptive.currentDifficulty l' \/
     adaptive_tier (Adaptive.currentDifficulty l') l' = []).
Proof.
  destruct g as [qs|y l|]; [| |discriminate].
  - intros _.
    pose proof (only_filterDifficulty "easy" qs) as He.
    pose proof (only_filterDifficulty "medium" qs) as Hm.
    pose proof (only_filterDifficulty "hard" qs) as Hh.
    unfold Adaptive.next, Adaptive.init. cbn [Adaptive.easy].
    revert He Hm Hh.
    generalize (filterDifficulty "easy" qs) (filterDifficulty "medium" qs)
               (filterDifficulty "hard" qs).
    intros es ms hs He Hm Hh.
    split_tiers es ms hs; run_next; intros H;
      first [discriminate H | injection H as <- <-];
      label_facts; do 2 eexists; (split; [reflexivity|]); simpl;
      first [left; congruence | right; reflexivity].
  - destruct l as [es ms hs cc cmc cd la].
    intros I.
    assert (II : only "easy" es /\ only "medium" ms /\ only "hard" hs /\
                 (cd = "easy"%string \/ cd = "medium"%string
                  \/ cd = "hard"%string)).
    { destruct y; simpl in I; unfold adaptive_inv in I; simpl in I; tauto. }
    clear I. destruct II as (He & Hm & Hh & [ -> | [ -> | -> ] ]).
    all: destruct y, b; run_next; split_tiers es ms hs; case_conds;
      intros H; first [discriminate H | injection H as <- <-];
      label_facts; do 2 eexists; (split; [reflexivity|]); simpl;
      first [left; congruence | right; reflexivity].
Qed.

Lemma adaptive_displays_current_tier_witness :
  let g := Adaptive.SuspendedYield Adaptive.YLoop
             (Adaptive.mkLocals [E2] [] [H1] 0 0 "medium" (JBool true)) in
  adaptive_gen_inv g /\
  exists y l',
    fst (Adaptive.next g (JBool true)) = Adaptive.SuspendedYield y l' /\
    (difficulty E2 = Adaptive.currentDifficulty l' \/
     adaptive_tier (Adaptive.currentDifficulty l') l' = []).
Proof.
  intros g.
  assert (I : adaptive_gen_inv g).
  { unfold g, adaptive_gen_inv, adaptive_inv, only; simpl.
    repeat split; auto; try discriminate; try lia;
      repeat constructor. }
  split; [exact I|].
  exact (adaptive_displays_current_tier g _ true E2 I eq_refl).
Defined.

(** ** The last-answer generator keeps its arrays sorted by label *)

Lemma app_loop_body_took (l l' : App.locals) (q : Question) :
  App.loop_body l = (Some q, l') ->
  took (App.easy l) (App.medium l) (App.hard l) q
       (App.easy l') (App.medium l') (App.hard l').
Proof.
  destruct l as [es ms hs la].
  destruct la as [|[|]]; unfold App.loop_body; simpl.
  all: split_tiers es ms hs; simpl; intros H;
    first [discriminate H | injection H as <- <-];
    unfold took; simpl; auto 10.
Qed.

Lemma app_init_inv (questions : list Question) :
  app_inv (App.init questions).
Proof.
  unfold app_inv; simpl. repeat split; apply only_filterDifficulty.
Qed.

Lemma app_while_loop_cases (l : App.locals) :
  app_inv l ->
  match App.while_loop l with
  | (g', IterYield q) =>
      app_gen_inv g' /\
      length (App.pool l) = S (length (App.remaining g')) /\
      forall label,
        filterDifficulty label (App.pool l)
        = filterDifficulty label (q :: App.remaining g')
  | (g', IterDone) =>
      app_gen_inv g' /\ App.pool l = [] /\ App.remaining g' = []
  | (_, IterThrow _) => False
  end.
Proof.
  intros (He & Hm & Hh).
  unfold App.while_loop.
  destruct (App.loop_condition l) eqn:C.
  - apply app_loop_condition_pool in C.
    destruct (app_loop_body_takes l C) as (q & l' & B & _).
    rewrite B. simpl.
    pose proof (app_loop_body_took _ _ _ B) as T.
    split; [exact (took_only _ _ _ _ _ _ _ T He Hm Hh)|]. split.
    + exact (took_length _ _ _ _ _ _ _ T).
    + intros label. exact (took_filter label _ _ _ _ _ _ _ T He Hm Hh).
  - simpl. split; [exact I|]. split; [|reflexivity].
    destruct (App.pool l) as [|x xs] eqn:E; [reflexivity|].
    assert (N : App.pool l <> []) by congruence.
    apply app_loop_condition_pool in N. congruence.
Qed.

Lemma app_step_cases (g : App.gen) (v : JsVal) :
  app_gen_inv g ->
  match App.next g v with
  | (g', IterYield q) =>
      app_gen_inv g' /\
      length (App.remaining g) = S (length (App.remaining g')) /\
      forall label,
        filterDifficulty label (App.remaining g)
        = filterDifficulty label (q :: App.remaining g')
  | (g', IterDone) =>
      app_gen_inv g' /\ App.remaining g = [] /\ App.remaining g' = []
  | (_, IterThrow _) => False
  end.
Proof.
  destruct g as [qs|l|]; intros I.
  - pose proof (app_init_inv qs) as II.
    pose proof (app_while_loop_cases _ II) as W.
    unfold App.next. cbn [App.remaining].
    destruct (App.medium (App.init qs)) as [|m ms] eqn:E; [exact W|].
    destruct II as (He & Hm & Hh).
    assert (T : took (App.easy (App.init qs)) (App.medium (App.init qs))
                  (App.hard (App.init qs)) m
                  (App.easy (App.init qs)) ms (App.hard (App.init qs))).
    { right. left. auto. }
    split; [|split].
    + exact (took_only _ _ _ _ _ _ _ T He Hm Hh).
    + exact (took_length _ _ _ _ _ _ _ T).
    + intros label. exact (took_filter label _ _ _ _ _ _ _ T He Hm Hh).
  - exact (app_while_loop_cases (App.set_lastCorrect v l) I).
  - simpl. auto.
Qed.

(** X3: in a session of the last-answer generator, the displayed
    questions of each tier come in the order in which the input lists
    them: for each of the three labels they are a prefix of the input
    questions of that label, and all of them once the session has been
    given an answer for every labelled question. *)
Theorem app_fifo_within_tier (questions : list Question)
    (feedback : list bool) (label : string) :
  In label ["easy"%string; "medium"%string; "hard"%string] ->
  let emitted :=
    fst (run App.next (App.questionGenerator questions) JNull feedback) in
  (exists rest,
     filterDifficulty label questions
     = filterDifficulty label emitted ++ rest) /\
  (length (filter tagged questions) <= length feedback ->
   filterDifficulty label emitted = filterDifficulty label questions).
Proof.
  intros L emitted.
  pose proof (run_order_prefix _ App.next App.remaining
                app_gen_inv app_step_cases feedback
                (App.questionGenerator questions) JNull label I) as P.
  fold emitted in P.
  change (App.remaining (App.questionGenerator questions))
    with (filterDifficulty "easy" questions
            ++ filterDifficulty "medium" questions
            ++ filterDifficulty "hard" questions) in P.
  rewrite (filter_initial_pool label questions L) in P.
  split.
  - eexists. exact P.
  - intros F.
    rewrite (run_state_full _ App.next App.remaining
               app_gen_inv app_step_cases) in P.
    + simpl in P. now rewrite app_nil_r in P.
    + exact I.
    + now rewrite (Permutation_length (app_initial_pool questions)).
Qed.

Lemma app_fifo_within_tier_witness :
  In "easy"%string ["easy"%string; "medium"%string; "hard"%string] /\
  filterDifficulty "easy"
    (fst (run App.next (App.questionGenerator sample_pool)
            JNull [true; false; true; true; false]))
  = [E1; E2].
Proof.
  assert (L : In "easy"%string
                ["easy"%string; "medium"%string; "hard"%string])
    by (simpl; auto).
  split; [exact L|].
  apply (proj2 (app_fifo_within_tier sample_pool
                  [true; false; true; true; false] "easy" L)).
  simpl; lia.
Defined.

(** ** The selection policy of the last-answer generator *)

(** X4: resumed at a [yield], the last-answer generator takes the next
    question from hard, else medium, else easy after a correct answer;
    from easy, else medium, else hard after a wrong answer; and from
    medium, else easy, else hard when the value sent is no boolean.  The
    very first call displays the first medium question if there is one
    and otherwise takes from easy, else hard. *)
Theorem app_selection_policy (q : Question) (e' m' h' : list Question) :
  (forall l,
     take_in_order [THard; TMedium; TEasy]
       (App.easy l) (App.medium l) (App.hard l) = Some (q, (e', m', h')) ->
     App.next (App.SuspendedYield l) (JBool true)
       = (App.SuspendedYield (App.mkLocals e' m' h' (JBool true)),
          IterYield q)) /\
  (forall l,
     take_in_order [TEasy; TMedium; THard]
       (App.easy l) (App.medium l) (App.hard l) = Some (q, (e', m', h')) ->
     App.next (App.SuspendedYield l) (JBool false)
       = (App.SuspendedYield (App.mkLocals e' m' h' (JBool false)),
          IterYield q)) /\
  (forall l,
     take_in_order [TMedium; TEasy; THard]
       (App.easy l) (App.medium l) (App.hard l) = Some (q, (e', m', h')) ->
     App.next (App.SuspendedYield l) JNull
       = (App.SuspendedYield (App.mkLocals e' m' h' JNull), IterYield q)) /\
  (forall questions v,
     take_in_order [TMedium; TEasy; THard]
       (filterDifficulty "easy" questions)
       (filterDifficulty "medium" questions)
       (filterDifficulty "hard" questions) = Some (q, (e', m', h')) ->
     App.next (App.questionGenerator questions) v
       = (App.SuspendedYield (App.mkLocals e' m' h' JNull), IterYield q)).
Proof.
  repeat split.
  - intros [es ms hs la] T. simpl in T.
    unfold App.next, App.while_loop, App.loop_condition, App.loop_body;
      simpl.
    split_tiers es ms hs; taken T; reflexivity.
  - intros [es ms hs la] T. simpl in T.
    unfold App.next, App.while_loop, App.loop_condition, App.loop_body;
      simpl.
    split_tiers es ms hs; taken T; reflexivity.
  - intros [es ms hs la] T. simpl in T.
    unfold App.next, App.while_loop, App.loop_condition, App.loop_body;
      simpl.
    split_tiers es ms hs; taken T; reflexivity.
  - intros questions v.
    unfold App.questionGenerator, App.next, App.init,
      App.while_loop, App.loop_condition, App.loop_body.
    cbn [App.easy App.medium App.hard App.lastCorrect is_true is_false].
    generalize (filterDifficulty "easy" questions)
               (filterDifficulty "medium" questions)
               (filterDifficulty "hard" questions).
    intros es ms hs T.
    split_tiers es ms hs; taken T; reflexivity.
Qed.

Lemma app_selection_policy_witness :
  let l := App.mkLocals [E1; E2] [M2] [H1] (JBool false) in
  take_in_order [THard; TMedium; TEasy]
    (App.easy l) (App.medium l) (App.hard l)
  = Some (H1, ([E1; E2], [M2], [])) /\
  App.next (App.SuspendedYield l) (JBool true)
  = (App.SuspendedYield (App.mkLocals [E1; E2] [M2] [] (JBool true)),
     IterYield H1).
Proof.
  intros l. split; [reflexivity|].
  exact (proj1 (app_selection_policy H1 [E1; E2] [M2] []) l eq_refl).
Defined.

(** ** Sessions with uniform answers *)

Lemma run_yield_nil {G : Type} (next : G -> JsVal -> G * IteratorResult)
    (g g' : G) (v : JsVal) (q : Question) :
  next g v = (g', IterYield q) -> fst (run next g v []) = [q].
Proof. intros H. simpl. now rewrite H. Qed.

Lemma run_yield_cons {G : Type} (next : G -> JsVal -> G * IteratorResult)
    (g g' : G) (v : JsVal) (q : Question) (b : bool) (fb : list bool) :
  next g v = (g', IterYield q) ->
  fst (run next g v (b :: fb)) = q :: fst (run next g' (JBool b) fb).
Proof.
  intros H. simpl. rewrite H.
  now destruct (run next g' (JBool b) fb).
Qed.

Lemma run_done_any {G : Type} (next : G -> JsVal -> G * IteratorResult)
    (g g' : G) (v : JsVal) (fb : list bool) :
  next g v = (g', IterDone) -> fst (run next g v fb) = [].
Proof. intros H. destruct fb; simpl; now rewrite H. Qed.

Ltac run_one :=
  first [ erewrite run_done_any by reflexivity
        | erewrite run_yield_nil by reflexivity
        | erewrite run_yield_cons by reflexivity ].

Lemma app_all_correct_from (n : nat) : forall l,
  fst (run App.next (App.SuspendedYield l) (JBool true) (repeat true n))
  = firstn (S n) (App.hard l ++ App.medium l ++ App.easy l).
Proof.
  induction n as [|n IH]; intros [es ms hs la]; cbn [repeat];
    split_tiers es ms hs; run_one; rewrite ?IH; reflexivity.
Qed.

Lemma app_all_wrong_from (n : nat) : forall l,
  fst (run App.next (App.SuspendedYield l) (JBool false) (repeat false n))
  = firstn (S n) (App.easy l ++ App.medium l ++ App.hard l).
Proof.
  induction n as [|n IH]; intros [es ms hs la]; cbn [repeat];
    split_tiers es ms hs; run_one; rewrite ?IH; reflexivity.
Qed.

Lemma app_start_shape (questions : list Question) (v : JsVal) :
  App.next (App.questionGenerator questions) v
  = let e := filterDifficulty "easy" questions in
    let m := filterDifficulty "medium" questions in
    let h := filterDifficulty "hard" questions in
    match m with
    | q :: ms => (App.SuspendedYield (App.mkLocals e ms h JNull), IterYield q)
    | [] =>
        match e with
        | q :: es =>
            (App.SuspendedYield (App.mkLocals es [] h JNull), IterYield q)
        | [] =>
            match h with
            | q :: hs =>
                (App.SuspendedYield (App.mkLocals [] [] hs JNull),
                 IterYield q)
            | [] => (App.Completed, IterDone)
            end
        end
    end.
Proof.
  unfold App.questionGenerator, App.next, App.init, App.while_loop,
    App.loop_condition, App.loop_body.
  cbn [App.easy App.medium App.hard App.lastCorrect is_true is_false].
  generalize (filterDifficulty "easy" questions)
             (filterDifficulty "medium" questions)
             (filterDifficulty "hard" questions).
  intros es ms hs. split_tiers es ms hs; reflexivity.
Qed.

(** X5: when every answer is correct, the last-answer generator displays
    the first medium question, then all hard questions, then the other
    medium questions, then the easy ones, each tier in input order; with
    no medium question it opens with the first easy question, and with
    neither it displays the hard ones.  After n answers the session has
    displayed the first n+1 questions of that order. *)
Theorem app_all_correct_order (questions : list Question) (n : nat) :
  fst (run App.next (App.questionGenerator questions) JNull
         (repeat true n))
  = firstn (S n) (app_order_all_correct questions).
Proof.
  unfold app_order_all_correct.
  pose proof (app_start_shape questions JNull) as S. cbv zeta in S.
  destruct (filterDifficulty "medium" questions) as [|m ms];
    [destruct (filterDifficulty "easy" questions) as [|e es];
     [destruct (filterDifficulty "hard" questions) as [|h hs]|]|].
  all: destruct n as [|n]; cbn [repeat];
    first [ rewrite (run_done_any _ _ _ _ _ S)
          | rewrite (run_yield_nil _ _ _ _ _ S)
          | rewrite (run_yield_cons _ _ _ _ _ _ _ S) ];
    rewrite ?app_all_correct_from; simpl; rewrite ?app_nil_r; reflexivity.
Qed.

(** X6: when every answer is wrong, the last-answer generator displays
    the first medium question, then all easy questions, then the other
    medium questions, then the hard ones, each tier in input order; with
    no medium question it displays the easy ones and then the hard ones.
    After n answers the session has displayed the first n+1 questions of
    that order. *)
Theorem app_all_wrong_order (questions : list Question) (n : nat) :
  fst (run App.next (App.questionGenerator questions) JNull
         (repeat false n))
  = firstn (S n) (app_order_all_wrong questions).
Proof.
  unfold app_order_all_wrong.
  pose proof (app_start_shape questions JNull) as S. cbv zeta in S.
  destruct (filterDifficulty "medium" questions) as [|m ms];
    [destruct (filterDifficulty "easy" questions) as [|e es];
     [destruct (filterDifficulty "hard" questions) as [|h hs]|]|].
  all: destruct n as [|n]; cbn [repeat];
    first [ rewrite (run_done_any _ _ _ _ _ S)
          | rewrite (run_yield_nil _ _ _ _ _ S)
          | rewrite (run_yield_cons _ _ _ _ _ _ _ S) ];
    rewrite ?app_all_wrong_from; simpl; rewrite ?app_nil_r; reflexivity.
Qed.

Lemma adaptive_all_wrong_from (n : nat) : forall y l,
  Adaptive.currentDifficulty l = "easy"%string ->
  fst (run Adaptive.next (Adaptive.SuspendedYield y l) (JBool false)
         (repeat false n))
  = firstn (S n)
      (Adaptive.easy l ++ Adaptive.medium l ++ Adaptive.hard l).
Proof.
  induction n as [|n IH]; intros y [es ms hs cc cmc cd la] E;
    simpl in E; subst cd; cbn [repeat];
    destruct y; split_tiers es ms hs; run_one;
    rewrite ?IH by reflexivity; reflexivity.
Qed.

Lemma adaptive_start_shape (questions : list Question) (v : JsVal) :
  Adaptive.next (Adaptive.questionGenerator questions) v
  = let e := filterDifficulty "easy" questions in
    let m := filterDifficulty "medium" questions in
    let h := filterDifficulty "hard" questions in
    match e with
    | q :: es =>
        (Adaptive.SuspendedYield Adaptive.YSeed
           (Adaptive.mkLocals es m h 0 0 "easy" JNull), IterYield q)
    | [] =>
        match m with
        | q :: ms =>
            (Adaptive.SuspendedYield Adaptive.YLoop
               (Adaptive.mkLocals [] ms h 0 0 "easy" JNull), IterYield q)
        | [] =>
            match h with
            | q :: hs =>
                (Adaptive.SuspendedYield Adaptive.YLoop
                   (Adaptive.mkLocals [] [] hs 0 0 "easy" JNull),
                 IterYield q)
            | [] => (Adaptive.Completed, IterDone)
            end
        end
    end.
Proof.
  unfold Adaptive.questionGenerator, Adaptive.next, Adaptive.init,
    Adaptive.while_loop, Adaptive.loop_condition, Adaptive.loop_body.
  cbn [Adaptive.easy Adaptive.medium Adaptive.hard Adaptive.lastAnswer
       is_true is_false].
  generalize (filterDifficulty "easy" questions)
             (filterDifficulty "medium" questions)
             (filterDifficulty "hard" questions).
  intros es ms hs. split_tiers es ms hs; reflexivity.
Qed.

(** X7: when every answer is wrong, the streak-based generator displays
    all easy questions, then all medium questions, then all hard
    questions, each tier in input order.  After n answers the session
    has displayed the first n+1 questions of that order. *)
Theorem adaptive_all_wrong_order (questions : list Question) (n : nat) :
  fst (run Adaptive.next (Adaptive.questionGenerator questions) JNull
         (repeat false n))
  = firstn (S n)
      (filterDifficulty "easy" questions
         ++ filterDifficulty "medium" questions
         ++ filterDifficulty "hard" questions).
Proof.
  pose proof (adaptive_start_shape questions JNull) as S. cbv zeta in S.
  destruct (filterDifficulty "easy" questions) as [|e es];
    [destruct (filterDifficulty "medium" questions) as [|m ms];
     [destruct (filterDifficulty "hard" questions) as [|h hs]|]|].
  all: destruct n as [|n]; cbn [repeat];
    first [ rewrite (run_done_any _ _ _ _ _ S)
          | rewrite (run_yield_nil _ _ _ _ _ S)
          | rewrite (run_yield_cons _ _ _ _ _ _ _ S) ];
    rewrite ?adaptive_all_wrong_from by reflexivity; reflexivity.
Qed.

(** * Properties of the scorer and of the application *)

(** ** The counters of the quiz *)

Lemma quiz_answers_from (clicks : list (Question * string)) : forall q,
  let q' := quiz_answers q clicks in
  Quiz.questionIndex q' = Quiz.questionIndex q + length clicks /\
  Quiz.score q' = Quiz.score q + correct_clicks clicks /\
  Quiz.correctAnswers q' = Quiz.correctAnswers q + correct_clicks clicks /\
  Quiz.incorrectAnswers q' + correct_clicks clicks
    = Quiz.incorrectAnswers q + length clicks /\
  Quiz.questions q' = Quiz.questions q.
Proof.
  unfold quiz_answers, correct_clicks.
  induction clicks as [|[cq clicked] clicks IH]; intros q; simpl.
  - repeat split; lia.
  - specialize (IH (fst (Quiz.handleAnswerClick q cq clicked))).
    simpl in IH. destruct IH as (I1 & I2 & I3 & I4 & I5).
    rewrite I1, I2, I3, I5. unfold Quiz.handleAnswerClick in *.
    destruct (isCorrectAnswer cq clicked); simpl in *;
      repeat split; lia.
Qed.

(** X1: after a new quiz has handled any list of answer clicks,
    [questionIndex] is the number of clicks, [score] and
    [correctAnswers] both are the number of clicks whose text equals the
    answer of the question they were made on, [incorrectAnswers] is the
    number of the other clicks, and the question list is the one the
    quiz was built from. *)
Theorem quiz_counters (questions : list Question)
    (clicks : list (Question * string)) :
  let q := quiz_answers (Quiz.new questions) clicks in
  Quiz.questionIndex q = length clicks /\
  Quiz.score q = correct_clicks clicks /\
  Quiz.correctAnswers q = correct_clicks clicks /\
  Quiz.incorrectAnswers q = length clicks - correct_clicks clicks /\
  Quiz.correctAnswers q + Quiz.incorrectAnswers q = Quiz.questionIndex q /\
  Quiz.questions q = questions.
Proof.
  destruct (quiz_answers_from clicks (Quiz.new questions))
    as (I1 & I2 & I3 & I4 & I5).
  simpl in *. repeat split; try assumption; lia.
Qed.

(** ** Answer buttons *)

Lemma strikeAt_Forall (P : QuizApp.Button -> Prop) (positions : list nat)
    (bs : list QuizApp.Button) :
  (forall b, P b -> P (QuizApp.strike b)) ->
  Forall P bs -> Forall P (QuizApp.strikeAt positions bs).
Proof.
  intros S F. unfold QuizApp.strikeAt.
  apply Forall_forall. intros b I.
  apply in_map_iff in I. destruct I as ([i x] & <- & I).
  apply in_combine_r in I. simpl.
  pose proof (proj1 (Forall_forall P bs) F x I) as Px.
  destruct (existsb (Nat.eqb i) positions); auto.
Qed.

Lemma strikeAt_allDisabled (positions : list nat)
    (bs : list QuizApp.Button) :
  allDisabled bs -> allDisabled (QuizApp.strikeAt positions bs).
Proof. apply strikeAt_Forall. intros b H. exact H. Qed.

Lemma answered_allDisabled (cq : Question) (bs : list QuizApp.Button) :
  allDisabled
    (map (QuizApp.highlightButton cq) (map QuizApp.disableButton bs)).
Proof.
  unfold allDisabled. rewrite map_map. apply Forall_forall.
  intros b I. apply in_map_iff in I. destruct I as (x & <- & _).
  unfold QuizApp.highlightButton, QuizApp.classList_add. simpl.
  destruct (isCorrectAnswer cq (QuizApp.innerText x));
    match goal with |- context [existsb ?f ?l] => destruct (existsb f l) end;
    reflexivity.
Qed.

Lemma allDisabled_nth (bs : list QuizApp.Button) (i : nat)
    (b : QuizApp.Button) :
  allDisabled bs -> nth_error bs i = Some b -> QuizApp.disabled b = true.
Proof.
  intros F N. apply nth_error_In in N.
  exact (proj1 (Forall_forall _ bs) F b N).
Qed.

Lemma adaptive_done_completed (g g' : Adaptive.gen) (v : JsVal) :
  Adaptive.next g v = (g', IterDone) -> g' = Adaptive.Completed.
Proof.
  destruct g as [qs|y l|]; simpl.
  - destruct (filterDifficulty "easy" qs); [|discriminate].
    unfold Adaptive.while_loop.
    destruct (Adaptive.loop_condition _); [|congruence].
    destruct (Adaptive.loop_body _) as [[q|] l']; congruence.
  - unfold Adaptive.while_loop.
    destruct (Adaptive.loop_condition _); [|congruence].
    destruct (Adaptive.loop_body _) as [[q|] l']; congruence.
  - congruence.
Qed.

Lemma shown_buttons_enabled (cq : Question) (used : bool) (i : nat)
    (b : QuizApp.Button) :
  nth_error (if used then hintedButtons cq else freshButtons cq) i = Some b ->
  QuizApp.disabled b = false.
Proof.
  intros N. apply nth_error_In in N.
  assert (F : Forall (fun b => QuizApp.disabled b = false)
                (freshButtons cq)).
  { unfold freshButtons. apply Forall_forall. intros x I.
    apply in_map_iff in I. now destruct I as (c & <- & _). }
  destruct used.
  - unfold hintedButtons in N.
    assert (F' : Forall (fun b => QuizApp.disabled b = false)
                   (QuizApp.strikeAt
                      (QuizApp.toRemove cq (freshButtons cq))
                      (freshButtons cq))).
    { apply strikeAt_Forall; [|exact F]. intros x H. exact H. }
    exact (proj1 (Forall_forall _ _) F' b N).
  - exact (proj1 (Forall_forall _ _) F b N).
Qed.

(** ** The phases of a session *)

Lemma showNextQuestion_inv (questions : list Question) (a : QuizApp.t)
    (v : JsVal) (q : Quiz.t) (g : Adaptive.gen) :
  QuizApp.quiz a = Some q ->
  QuizApp.questionIterator a = Some g ->
  Quiz.questions q = questions ->
  Quiz.score q = Quiz.correctAnswers q ->
  Quiz.correctAnswers q + Quiz.incorrectAnswers q = Quiz.questionIndex q ->
  QuizApp.hintsRemaining a <= 3 ->
  QuizApp.screen a = QuizApp.quizScreen ->
  QuizApp.timers a = [] ->
  allDisabled (QuizApp.answerButtons a) ->
  Quiz.questionIndex q + length (Adaptive.remaining g)
    = length (filter tagged questions) ->
  exists a', QuizApp.showNextQuestion a v = Some a' /\
             session_inv questions a'.
Proof.
  destruct a as [qz it cur streak hints used bs hb scr tm]; simpl.
  intros -> -> HQ Hs Hc Hh -> -> Hd Hn.
  unfold QuizApp.showNextQuestion; simpl.
  destruct (Adaptive.remaining g) as [|x xs] eqn:E.
  - destruct (adaptive_next_done g v E) as [g' D]. rewrite D.
    pose proof (adaptive_done_completed _ _ _ D) as ->.
    eexists. split; [reflexivity|].
    exists q, Adaptive.Completed. simpl.
    repeat (split; [assumption || reflexivity|]).
    right. right. simpl in Hn. repeat split; auto. lia.
  - destruct (adaptive_next_yield g v) as (g' & nq & Y & P); [congruence|].
    rewrite Y. rewrite E in P. apply Permutation_length in P.
    eexists. split; [reflexivity|].
    exists q, g'. unfold QuizApp.displayQuestion, QuizApp.updateHintButton.
    cbn [QuizApp.quiz QuizApp.questionIterator QuizApp.hintsRemaining
         QuizApp.screen QuizApp.timers QuizApp.hintBtn
         QuizApp.usedHintOnCurrentQuestion QuizApp.currentQuestion
         QuizApp.answerButtons].
    repeat (split; [assumption || reflexivity|]).
    left. repeat split.
    + simpl in *. lia.
    + destruct (hints <=? 0); reflexivity.
    + exists nq. split; reflexivity.
Qed.

Lemma session_inv_start (hint0 : QuizApp.HintButton)
    (screen0 : QuizApp.Screen) (questions : list Question) :
  session_inv questions
    (QuizApp.startQuiz (QuizApp.new hint0 screen0) (Some questions)).
Proof.
  unfold QuizApp.startQuiz, QuizApp.new.
  cbn [QuizApp.quiz QuizApp.questionIterator QuizApp.hintsRemaining
       QuizApp.screen QuizApp.timers QuizApp.hintBtn
       QuizApp.usedHintOnCurrentQuestion QuizApp.currentQuestion
       QuizApp.answerButtons QuizApp.correctStreak].
  match goal with
  | |- context [QuizApp.showNextQuestion ?a ?v] =>
      destruct (showNextQuestion_inv questions a v (Quiz.new questions)
                  (Adaptive.questionGenerator questions))
        as (a' & S & I); try reflexivity
  end.
  - simpl. constructor.
  - simpl. apply (Permutation_length (adaptive_initial_pool questions)).
  - simpl Quiz.questions in *. rewrite S. exact I.
Qed.

Lemma use5050Hint_inv_disabled (questions : list Question) (a a' : QuizApp.t) :
  session_inv questions a ->
  QuizApp.timers a <> [] \/ QuizApp.screen a = QuizApp.resultsScreen ->
  QuizApp.use5050Hint a = Some a' ->
  session_inv questions a'.
Proof.
  intros (q & g & Hq & Hg & HQ & Hs & Hc & Hh & Ph) Side U.
  assert (BC : exists tm, QuizApp.timers a = tm /\
            allDisabled (QuizApp.answerButtons a) /\
            ((QuizApp.screen a = QuizApp.quizScreen /\
              (exists b, tm = [b]) /\
              Quiz.questionIndex q + length (Adaptive.remaining g)
                = length (filter tagged questions))
             \/
             (QuizApp.screen a = QuizApp.resultsScreen /\ tm = [] /\
              Quiz.questionIndex q = length (filter tagged questions) /\
              Adaptive.remaining g = []))).
  { destruct Ph as [(S & T & _)|[(S & T & N & D)|(S & T & N & R & D)]].
    - destruct Side as [X|X]; [contradiction|congruence].
    - eexists. split; [reflexivity|]. split; [exact D|]. left. auto.
    - eexists. split; [reflexivity|]. split; [exact D|]. right. auto. }
  clear Ph Side. destruct BC as (tm & Tm & D & Ph).
  destruct a as [qz it cur streak hints used bs hb scr tm0]; simpl in *.
  subst qz it tm0.
  unfold QuizApp.use5050Hint in U; simpl in U.
  destruct ((hints <=? 0) || used) eqn:G.
  - injection U as <-. exists q, g. simpl.
    repeat (split; [assumption || reflexivity|]).
    destruct Ph as [(S & T & N)|(S & T & N & R)].
    + right. left. auto.
    + right. right. auto.
  - assert (D' : forall ps, allDisabled (QuizApp.strikeAt ps bs))
      by (intros ps; now apply strikeAt_allDisabled).
    destruct cur as [cq|]; [|destruct bs as [|b0 bs]; [|discriminate]];
      injection U as <-; exists q, g;
      unfold QuizApp.updateHintButton;
      cbn [QuizApp.quiz QuizApp.questionIterator QuizApp.hintsRemaining
           QuizApp.screen QuizApp.timers QuizApp.hintBtn
           QuizApp.usedHintOnCurrentQuestion QuizApp.currentQuestion
           QuizApp.answerButtons];
      repeat (split; [assumption || reflexivity || lia|]);
      (destruct Ph as [(S & T & N)|(S & T & N & R)];
       [right; left; auto | right; right; auto]).
Qed.

Lemma session_inv_dispatch (questions : list Question) (a : QuizApp.t)
    (ev : QuizApp.Event) :
  session_inv questions a -> session_inv questions (QuizApp.dispatch a ev).
Proof.
  intros Inv.
  pose proof Inv as (q & g & Hq & Hg & HQ & Hs & Hc & Hh & Ph).
  destruct Ph as [(S & T & N & HB & cq & Cur & Bs)
                 |[(S & T & N & D)|(S & T & N & R & D)]].
  - (* a question waits for its answer *)
    destruct a as [qz it cur streak hints used bs hb scr tm]; simpl in *.
    subst qz it scr tm cur bs.
    destruct ev as [i| |]; simpl; [| |exact Inv].
    + destruct (nth_error _ i) as [b|] eqn:Nth; [|exact Inv].
      rewrite (shown_buttons_enabled cq used i b Nth).
      unfold QuizApp.handleAnswerClick; simpl.
      set (ok := isCorrectAnswer cq (QuizApp.innerText b)).
      exists (Quiz.nextQuestion (fst (Quiz.checkAnswer q ok))), g.
      assert (E : Quiz.checkAnswer q ok
                  = (fst (Quiz.checkAnswer q ok), ok))
        by (unfold Quiz.checkAnswer; destruct ok; reflexivity).
      rewrite E. simpl.
      split; [reflexivity|]. split; [reflexivity|].
      unfold Quiz.checkAnswer; destruct ok; simpl;
        (repeat (split; [assumption || lia|]));
        right; left; (split; [reflexivity|]);
        (split; [eexists; reflexivity|]);
        (split; [lia|apply answered_allDisabled]).
    + rewrite HB.
      destruct ((hints <=? 0) || used) eqn:G; simpl; [exact Inv|].
      unfold QuizApp.use5050Hint; simpl. rewrite G. simpl.
      apply orb_false_iff in G. destruct G as [G ->].
      exists q, g. unfold QuizApp.updateHintButton.
      cbn [QuizApp.quiz QuizApp.questionIterator QuizApp.hintsRemaining
           QuizApp.screen QuizApp.timers QuizApp.hintBtn
           QuizApp.usedHintOnCurrentQuestion QuizApp.currentQuestion
           QuizApp.answerButtons].
      repeat (split; [assumption || reflexivity || lia|]).
      left. repeat split; auto.
      * destruct (Init.Nat.pred hints <=? 0); reflexivity.
      * exists cq. split; reflexivity.
  - (* the next question is on its way *)
    destruct ev as [i| |]; simpl.
    + destruct (nth_error _ i) as [b|] eqn:Nth; [|exact Inv].
      now rewrite (allDisabled_nth _ _ _ D Nth).
    + destruct (QuizApp.hintDisabled _); [exact Inv|].
      destruct (QuizApp.use5050Hint a) as [a'|] eqn:U; [|exact Inv].
      simpl. apply (use5050Hint_inv_disabled questions a a' Inv); auto.
      left. destruct T as [b ->]. discriminate.
    + destruct T as [b T]. rewrite T.
      match goal with
      | |- context [QuizApp.showNextQuestion ?a1 ?v] =>
          destruct (showNextQuestion_inv questions a1 v q g)
            as (a' & Sh & I); auto
      end.
      rewrite Sh. exact I.
  - (* the results are on display *)
    destruct ev as [i| |]; simpl.
    + destruct (nth_error _ i) as [b|] eqn:Nth; [|exact Inv].
      now rewrite (allDisabled_nth _ _ _ D Nth).
    + destruct (QuizApp.hintDisabled _); [exact Inv|].
      destruct (QuizApp.use5050Hint a) as [a'|] eqn:U; [|exact Inv].
      simpl. apply (use5050Hint_inv_disabled questions a a' Inv); auto.
    + rewrite T. exact Inv.
Qed.

Lemma session_inv_reachable (hint0 : QuizApp.HintButton)
    (screen0 : QuizApp.Screen) (questions : list Question)
    (events : list QuizApp.Event) :
  session_inv questions (session hint0 screen0 questions events).
Proof.
  unfold session.
  generalize (session_inv_start hint0 screen0 questions).
  generalize (QuizApp.startQuiz (QuizApp.new hint0 screen0)
                (Some questions)).
  induction events as [|ev events IH]; intros a I; simpl; [exact I|].
  apply IH. now apply session_inv_dispatch.
Qed.

(** ** What a hint does to the buttons *)

Lemma nth_error_indexed {A : Type} (bs : list A) : forall k i,
  nth_error (combine (seq k (length bs)) bs) i
  = option_map (fun b => (k + i, b)) (nth_error bs i).
Proof.
  induction bs as [|b bs IH]; intros k i; simpl.
  - now destruct i.
  - destruct i as [|i]; simpl.
    + now rewrite Nat.add_0_r.
    + rewrite IH. now rewrite Nat.add_succ_r.
Qed.

Lemma strikeAt_nth (positions : list nat) (bs : list QuizApp.Button)
    (i : nat) :
  nth_error (QuizApp.strikeAt positions bs) i
  = option_map
      (fun b => if existsb (Nat.eqb i) positions
                then QuizApp.strike b else b)
      (nth_error bs i).
Proof.
  unfold QuizApp.strikeAt. rewrite nth_error_map, nth_error_indexed.
  now destruct (nth_error bs i).
Qed.

Lemma strikeAt_length (positions : list nat) (bs : list QuizApp.Button) :
  length (QuizApp.strikeAt positions bs) = length bs.
Proof.
  unfold QuizApp.strikeAt.
  rewrite length_map, length_combine, length_seq. lia.
Qed.

Lemma strikeAt_innerText (positions : list nat)
    (bs : list QuizApp.Button) :
  map QuizApp.innerText (QuizApp.strikeAt positions bs)
  = map QuizApp.innerText bs.
Proof.
  apply nth_error_ext. intros i.
  rewrite !nth_error_map, strikeAt_nth.
  destruct (nth_error bs i) as [b|]; simpl; [|reflexivity].
  now destruct (existsb (Nat.eqb i) positions).
Qed.

Lemma toRemove_incorrect (cq : Question) (bs : list QuizApp.Button)
    (i : nat) :
  In i (QuizApp.toRemove cq bs) ->
  exists b, nth_error bs i = Some b /\
            isCorrectAnswer cq (QuizApp.innerText b) = false.
Proof.
  unfold QuizApp.toRemove. intros I.
  assert (F : In i (filter
                 (fun i => match nth_error bs i with
                           | Some b =>
                               negb (isCorrectAnswer cq (QuizApp.innerText b))
                           | None => false
                           end) (seq 0 (length bs)))).
  { revert I. generalize (filter
                 (fun i => match nth_error bs i with
                           | Some b =>
                               negb (isCorrectAnswer cq (QuizApp.innerText b))
                           | None => false
                           end) (seq 0 (length bs))).
    intros l. destruct l as [|x [|y l]]; simpl; tauto. }
  apply filter_In in F. destruct F as [_ F].
  destruct (nth_error bs i) as [b|]; [|discriminate].
  exists b. split; [reflexivity|]. now apply negb_true_iff.
Qed.

Lemma existsb_eqb_below (x : nat) (l : list nat) :
  (forall y, In y l -> x < y) -> existsb (Nat.eqb x) l = false.
Proof.
  intros H. destruct (existsb (Nat.eqb x) l) eqn:E; [|reflexivity].
  apply existsb_exists in E. destruct E as (y & I & Q).
  apply Nat.eqb_eq in Q. subst y. specialize (H x I). lia.
Qed.

(** Membership in the first [m] positions that satisfy a test: the
    position satisfies it and fewer than [m] positions before it do. *)
Lemma first_positions {A : Type} (p : A -> bool) (bs : list A) :
  forall k m (f : nat -> bool) i,
    (forall j b, nth_error bs j = Some b -> f (k + j) = p b) ->
    existsb (Nat.eqb (k + i)) (firstn m (filter f (seq k (length bs))))
    = match nth_error bs i with
      | Some b => p b && (length (filter p (firstn i bs)) <? m)
      | None => false
      end.
Proof.
  induction bs as [|b bs IH]; intros k m f i H.
  - simpl. rewrite firstn_nil. now destruct i.
  - pose proof (H 0 b eq_refl) as H0. rewrite Nat.add_0_r in H0.
    assert (H' : forall j x, nth_error bs j = Some x -> f (S k + j) = p x).
    { intros j x N. rewrite <- (H (S j) x N). f_equal. lia. }
    cbn [length seq filter]. rewrite H0.
    destruct (p b) eqn:Pb.
    + destruct m as [|m].
      * cbn [firstn existsb].
        destruct i as [|i]; cbn [nth_error]; [now rewrite Pb|].
        destruct (nth_error bs i) as [x|]; [|reflexivity].
        now rewrite Nat.ltb_irrefl || (symmetry; apply andb_false_iff;
          right; apply Nat.ltb_ge; lia).
      * cbn [firstn existsb].
        destruct i as [|i]; cbn [nth_error firstn filter length].
        -- rewrite Nat.add_0_r, Nat.eqb_refl, Pb. reflexivity.
        -- assert (Ne : (k + S i =? k) = false) by (apply Nat.eqb_neq; lia).
           rewrite Ne. cbn [orb].
           replace (k + S i) with (S k + i) by lia.
           rewrite (IH (S k) m f i H').
           destruct (nth_error bs i) as [x|]; [|reflexivity].
           rewrite Pb. cbn [length]. reflexivity.
    + destruct i as [|i]; cbn [nth_error firstn filter length].
      * rewrite Pb. cbn [andb]. rewrite Nat.add_0_r.
        apply existsb_eqb_below. intros y I.
        assert (I' : In y (filter f (seq (S k) (length bs)))).
        { revert I. generalize (filter f (seq (S k) (length bs))).
          intros l. revert l. induction m as [|m IHm]; intros [|z l];
            simpl; try tauto.
          intros [->|I]; [now left|right; now apply IHm]. }
        apply filter_In in I'. destruct I' as [I' _].
        apply in_seq in I'. lia.
      * replace (k + S i) with (S k + i) by lia.
        rewrite (IH (S k) m f i H').
        destruct (nth_error bs i) as [x|]; [|reflexivity].
        now rewrite Pb.
Qed.

Lemma toRemove_positions (cq : Question) (bs : list QuizApp.Button)
    (i : nat) :
  existsb (Nat.eqb i) (QuizApp.toRemove cq bs)
  = match nth_error bs i with
    | Some b =>
        negb (isCorrectAnswer cq (QuizApp.innerText b))
        && (length
              (filter
                 (fun x => negb (isCorrectAnswer cq (QuizApp.innerText x)))
                 (firstn i bs)) <? 2)
    | None => false
    end.
Proof.
  unfold QuizApp.toRemove.
  apply (first_positions
           (fun x => negb (isCorrectAnswer cq (QuizApp.innerText x)))
           bs 0 2 _ i).
  intros j b N. simpl. now rewrite N.
Qed.

(** X12: a hint taken while hints are left, none was taken on the
    current question and a question is current restyles exactly the
    buttons whose text is not the answer and that have fewer than two
    such buttons before them, that is the first two wrong choices, or
    all wrong choices when there are fewer than two.  A restyled button
    gets opacity 0.3, pointer-events none and a line-through and keeps
    its text, its disabled flag and its classes.  Every other button,
    so every button that shows the answer, stays exactly as it was.  The
    hint costs one hint, marks the question as hinted, disables the hint
    button and touches nothing else.  With no hint left, or a hint
    already taken on the question, [use5050Hint] changes nothing. *)
Theorem use5050Hint_effect (a : QuizApp.t) (cq : Question) :
  QuizApp.currentQuestion a = Some cq ->
  let bs := QuizApp.answerButtons a in
  let wrong := fun b => negb (isCorrectAnswer cq (QuizApp.innerText b)) in
  (QuizApp.hintsRemaining a = 0 \/
   QuizApp.usedHintOnCurrentQuestion a = true ->
   QuizApp.use5050Hint a = Some a) /\
  (0 < QuizApp.hintsRemaining a ->
   QuizApp.usedHintOnCurrentQuestion a = false ->
   exists a',
     QuizApp.use5050Hint a = Some a' /\
     S (QuizApp.hintsRemaining a') = QuizApp.hintsRemaining a /\
     QuizApp.usedHintOnCurrentQuestion a' = true /\
     QuizApp.hintDisabled (QuizApp.hintBtn a') = true /\
     length (QuizApp.answerButtons a') = length bs /\
     (forall i b, nth_error bs i = Some b ->
        exists b',
          nth_error (QuizApp.answerButtons a') i = Some b' /\
          if wrong b && (length (filter wrong (firstn i bs)) <? 2)
          then QuizApp.innerText b' = QuizApp.innerText b /\
               QuizApp.disabled b' = QuizApp.disabled b /\
               QuizApp.classList b' = QuizApp.classList b /\
               QuizApp.opacity b' = "0.3"%string /\
               QuizApp.pointerEvents b' = "none"%string /\
               QuizApp.textDecoration b' = "line-through"%string
          else b' = b) /\
     QuizApp.quiz a' = QuizApp.quiz a /\
     QuizApp.questionIterator a' = QuizApp.questionIterator a /\
     QuizApp.currentQuestion a' = Some cq /\
     QuizApp.correctStreak a' = QuizApp.correctStreak a /\
     QuizApp.screen a' = QuizApp.screen a /\
     QuizApp.timers a' = QuizApp.timers a).
Proof.
  destruct a as [qz it cur streak hints used bs0 hb scr tm]; simpl.
  intros -> . split.
  - intros G. unfold QuizApp.use5050Hint; simpl.
    destruct G as [->| ->]; simpl; [reflexivity|].
    now rewrite orb_true_r.
  - intros H ->. unfold QuizApp.use5050Hint; simpl.
    destruct hints as [|h]; [lia|]. simpl.
    eexists. split; [reflexivity|].
    unfold QuizApp.updateHintButton; simpl.
    split; [reflexivity|]. split; [reflexivity|].
    split; [now destruct h|].
    split; [apply strikeAt_length|].
    split; [|repeat split].
    intros i b N. rewrite strikeAt_nth, N. simpl.
    eexists. split; [reflexivity|].
    rewrite toRemove_positions, N.
    destruct (negb (isCorrectAnswer cq (QuizApp.innerText b))
              && (length
                    (filter
                       (fun x =>
                          negb (isCorrectAnswer cq (QuizApp.innerText x)))
                       (firstn i bs0)) <? 2));
      [repeat split|reflexivity].
Qed.

Lemma use5050Hint_effect_witness :
  let a := QuizApp.mk None None (Some E1) 0 3 false
             (map QuizApp.createButton
                ["no"%string; "yes"%string; "maybe"%string; "never"%string])
             (QuizApp.mkHintButton false "1") QuizApp.quizScreen [] in
  QuizApp.currentQuestion a = Some E1 /\
  0 < QuizApp.hintsRemaining a /\
  QuizApp.usedHintOnCurrentQuestion a = false /\
  exists a',
    QuizApp.use5050Hint a = Some a' /\
    S (QuizApp.hintsRemaining a') = QuizApp.hintsRemaining a /\
    (exists b0, nth_error (QuizApp.answerButtons a') 0 = Some b0 /\
                QuizApp.innerText b0 = "no"%string /\
                QuizApp.pointerEvents b0 = "none"%string) /\
    nth_error (QuizApp.answerButtons a') 1
      = Some (QuizApp.createButton "yes") /\
    (exists b2, nth_error (QuizApp.answerButtons a') 2 = Some b2 /\
                QuizApp.innerText b2 = "maybe"%string /\
                QuizApp.pointerEvents b2 = "none"%string) /\
    nth_error (QuizApp.answerButtons a') 3
      = Some (QuizApp.createButton "never").
Proof.
  intros a.
  assert (C : QuizApp.currentQuestion a = Some E1) by reflexivity.
  assert (H : 0 < QuizApp.hintsRemaining a) by (simpl; lia).
  assert (U : QuizApp.usedHintOnCurrentQuestion a = false) by reflexivity.
  split; [exact C|]. split; [exact H|]. split; [exact U|].
  destruct (proj2 (use5050Hint_effect a E1 C) H U)
    as (a' & E & S & _ & _ & _ & B & _).
  exists a'. split; [exact E|]. split; [exact S|].
  destruct (B 0 (QuizApp.createButton "no") eq_refl) as (b0 & N0 & P0).
  destruct (B 1 (QuizApp.createButton "yes") eq_refl) as (b1 & N1 & P1).
  destruct (B 2 (QuizApp.createButton "maybe") eq_refl) as (b2 & N2 & P2).
  destruct (B 3 (QuizApp.createButton "never") eq_refl) as (b3 & N3 & P3).
  simpl in P0, P1, P2, P3. subst b1 b3.
  split; [exists b0; tauto|]. split; [exact N1|].
  split; [exists b2; tauto|exact N3].
Defined.

(** ** What holds throughout a session *)

Lemma filter_tagged_full (questions : list Question) :
  length (filter tagged questions) = length questions <->
  Forall (fun q => tagged q = true) questions.
Proof.
  split.
  - intros L. apply Forall_forall. intros q I.
    destruct (tagged q) eqn:T; [reflexivity|].
    pose proof (filter_tagged_short questions q I T). lia.
  - intros F. now rewrite (filter_tagged_all questions F).
Qed.

(** X10: at every moment of a session, whatever the user clicks and
    whenever the timers fire, the quiz counters agree ([score] equals
    [correctAnswers], and [correctAnswers] plus [incorrectAnswers]
    equals [questionIndex]), the number of answers taken does not exceed
    the number of labelled questions nor the length of the question
    list, at most one delayed callback is pending, at most three hints
    are left, and the page shows the quiz screen or the results
    screen. *)
Theorem quizapp_bookkeeping (hint0 : QuizApp.HintButton)
    (screen0 : QuizApp.Screen) (questions : list Question)
    (events : list QuizApp.Event) :
  let a := session hint0 screen0 questions events in
  exists q,
    QuizApp.quiz a = Some q /\
    Quiz.questions q = questions /\
    Quiz.score q = Quiz.correctAnswers q /\
    Quiz.correctAnswers q + Quiz.incorrectAnswers q = Quiz.questionIndex q /\
    Quiz.questionIndex q <= length (filter tagged questions) /\
    length (filter tagged questions) <= length questions /\
    length (QuizApp.timers a) <= 1 /\
    QuizApp.hintsRemaining a <= 3 /\
    (QuizApp.screen a = QuizApp.quizScreen
     \/ QuizApp.screen a = QuizApp.resultsScreen).
Proof.
  intros a.
  destruct (session_inv_reachable hint0 screen0 questions events)
    as (q & g & Hq & Hg & HQ & Hs & Hc & Hh & Ph).
  fold a in Hq, Hg, Hh, Ph. exists q.
  pose proof (filter_tagged_length questions) as FL.
  repeat (split; [assumption|]).
  destruct Ph as [(S & T & N & _)|[(S & (b & T) & N & _)|(S & T & N & _)]];
    rewrite T; simpl; repeat split; auto; lia.
Qed.

(** X11: the results screen is on display exactly when no callback is
    pending and as many answers were taken as the input has labelled
    questions.  At that moment [isEnded] holds if and only if every
    input question carries one of the three labels, and the score does
    not exceed the number of labelled questions: with a question of any
    other label in the input the results appear while the quiz does not
    count as ended, and the score stays below the total it is reported
    against. *)
Theorem quizapp_results_screen (hint0 : QuizApp.HintButton)
    (screen0 : QuizApp.Screen) (questions : list Question)
    (events : list QuizApp.Event) :
  let a := session hint0 screen0 questions events in
  exists q,
    QuizApp.quiz a = Some q /\
    (QuizApp.screen a = QuizApp.resultsScreen <->
     QuizApp.timers a = [] /\
     Quiz.questionIndex q = length (filter tagged questions)) /\
    (QuizApp.screen a = QuizApp.resultsScreen ->
     (Quiz.isEnded q = true <->
      Forall (fun x => tagged x = true) questions) /\
     Quiz.score q <= length (filter tagged questions) /\
     (forall x, In x questions -> tagged x = false ->
        Quiz.score q < length (Quiz.questions q))).
Proof.
  intros a.
  destruct (session_inv_reachable hint0 screen0 questions events)
    as (q & g & Hq & Hg & HQ & Hs & Hc & Hh & Ph).
  fold a in Hq, Hg, Hh, Ph. exists q.
  split; [exact Hq|].
  assert (R : QuizApp.screen a = QuizApp.resultsScreen ->
              QuizApp.timers a = [] /\
              Quiz.questionIndex q = length (filter tagged questions)).
  { destruct Ph as [(S & _)|[(S & _)|(S & T & N & _)]];
      intros X; try congruence. auto. }
  split; [split; [exact R|]|].
  - intros (T & N).
    destruct Ph as [(S & _ & N' & _)|[(S & (b & T') & _)|(S & _)]];
      [lia|congruence|exact S].
  - intros X. destruct (R X) as (T & N). split; [|split].
    + unfold Quiz.isEnded. rewrite Nat.eqb_eq, HQ, N.
      apply filter_tagged_full.
    + lia.
    + intros x I U. rewrite HQ.
      pose proof (filter_tagged_short questions x I U). lia.
Qed.

Lemma hinted_correct_untouched (cq : Question) (b : QuizApp.Button) :
  In b (hintedButtons cq) ->
  isCorrectAnswer cq (QuizApp.innerText b) = true ->
  b = QuizApp.createButton (QuizApp.innerText b).
Proof.
  unfold hintedButtons. intros I C.
  apply In_nth_error in I. destruct I as [i N].
  rewrite strikeAt_nth in N.
  destruct (nth_error (freshButtons cq) i) as [x|] eqn:X; [|discriminate].
  simpl in N.
  assert (F : x = QuizApp.createButton (QuizApp.innerText x)).
  { unfold freshButtons in X. rewrite nth_error_map in X.
    destruct (nth_error (choices cq) i); [|discriminate].
    now injection X as <-. }
  destruct (existsb (Nat.eqb i) _) eqn:Ex.
  - apply existsb_exists in Ex. destruct Ex as (j & J & Eq).
    apply Nat.eqb_eq in Eq. subst j.
    destruct (toRemove_incorrect _ _ _ J) as (y & Y & W).
    rewrite X in Y. injection Y as <-.
    injection N as <-. simpl in C. congruence.
  - injection N as <-. exact F.
Qed.

(** X13: whenever a session shows the quiz screen with no callback
    pending, a question is current and fewer answers were taken than
    there are labelled questions, so the number shown as current never
    exceeds the total.  The buttons carry the choices of the current
    question, in their order; every button is enabled; every button
    that shows the answer is exactly as it was created, whether or not a
    hint was taken; the hint button is disabled exactly when no hint is
    left or one was taken on this question. *)
Theorem quizapp_awaiting_answer (hint0 : QuizApp.HintButton)
    (screen0 : QuizApp.Screen) (questions : list Question)
    (events : list QuizApp.Event) :
  let a := session hint0 screen0 questions events in
  QuizApp.screen a = QuizApp.quizScreen ->
  QuizApp.timers a = [] ->
  exists q cq,
    QuizApp.quiz a = Some q /\
    QuizApp.currentQuestion a = Some cq /\
    Quiz.questionIndex q + 1 <= length (filter tagged questions) /\
    Quiz.questionIndex q + 1 <= length (Quiz.questions q) /\
    map QuizApp.innerText (QuizApp.answerButtons a) = choices cq /\
    Forall (fun b => QuizApp.disabled b = false) (QuizApp.answerButtons a) /\
    (forall b, In b (QuizApp.answerButtons a) ->
       isCorrectAnswer cq (QuizApp.innerText b) = true ->
       b = QuizApp.createButton (QuizApp.innerText b)) /\
    (QuizApp.usedHintOnCurrentQuestion a = false ->
     QuizApp.answerButtons a = map QuizApp.createButton (choices cq)) /\
    QuizApp.hintDisabled (QuizApp.hintBtn a)
    = (QuizApp.hintsRemaining a <=? 0)
      || QuizApp.usedHintOnCurrentQuestion a.
Proof.
  intros a S T.
  destruct (session_inv_reachable hint0 screen0 questions events)
    as (q & g & Hq & Hg & HQ & Hs & Hc & Hh & Ph).
  fold a in Hq, Hg, Hh, Ph.
  destruct Ph as [(_ & _ & N & HB & cq & Cur & Bs)
                 |[(_ & (b & T') & _)|(S' & _)]]; try congruence.
  exists q, cq.
  pose proof (filter_tagged_length questions) as FL.
  split; [exact Hq|]. split; [exact Cur|]. split; [lia|].
  split; [rewrite HQ; lia|].
  assert (Fresh : map QuizApp.innerText (freshButtons cq) = choices cq).
  { unfold freshButtons. rewrite map_map. simpl. apply map_id. }
  split; [|split; [|split; [|split]]].
  - rewrite Bs. destruct (QuizApp.usedHintOnCurrentQuestion a);
      [unfold hintedButtons; now rewrite strikeAt_innerText|exact Fresh].
  - apply Forall_forall. intros b I. apply In_nth_error in I.
    destruct I as [i I]. rewrite Bs in I.
    exact (shown_buttons_enabled cq _ i b I).
  - intros b I C. rewrite Bs in I.
    destruct (QuizApp.usedHintOnCurrentQuestion a).
    + now apply (hinted_correct_untouched cq).
    + unfold freshButtons in I. apply in_map_iff in I.
      now destruct I as (c & <- & _).
  - intros U. now rewrite Bs, U.
  - exact HB.
Qed.

Lemma quizapp_awaiting_answer_witness :
  let a := session (QuizApp.mkHintButton false "1") QuizApp.usernameScreen
             sample_pool [QuizApp.ClickAnswer 1; QuizApp.TimerFires;
                          QuizApp.ClickHint] in
  QuizApp.screen a = QuizApp.quizScreen /\
  QuizApp.timers a = [] /\
  exists q cq,
    QuizApp.quiz a = Some q /\
    QuizApp.currentQuestion a = Some cq /\
    Quiz.questionIndex q + 1 <= length (filter tagged sample_pool).
Proof.
  intros a.
  assert (S : QuizApp.screen a = QuizApp.quizScreen) by reflexivity.
  assert (T : QuizApp.timers a = []) by reflexivity.
  split; [exact S|]. split; [exact T|].
  destruct (quizapp_awaiting_answer (QuizApp.mkHintButton false "1")
              QuizApp.usernameScreen sample_pool
              [QuizApp.ClickAnswer 1; QuizApp.TimerFires;
               QuizApp.ClickHint] S T)
    as (q & cq & Hq & Hc & N & _).
  exists q, cq. auto.
Defined.

(** ** Hints are not refunded *)


(** ** One round of a session *)

Lemma showNextQuestion_cases (a a' : QuizApp.t) (v : JsVal) :
  QuizApp.showNextQuestion a v = Some a' ->
  QuizApp.quiz a' = QuizApp.quiz a /\
  QuizApp.correctStreak a' = QuizApp.correctStreak a /\
  QuizApp.hintsRemaining a' = QuizApp.hintsRemaining a /\
  QuizApp.timers a' = QuizApp.timers a /\
  ((QuizApp.screen a' = QuizApp.resultsScreen /\
    QuizApp.currentQuestion a' = QuizApp.currentQuestion a /\
    QuizApp.answerButtons a' = QuizApp.answerButtons a)
   \/
   (QuizApp.screen a' = QuizApp.screen a /\
    QuizApp.usedHintOnCurrentQuestion a' = false /\
    exists nq,
      QuizApp.currentQuestion a' = Some nq /\
      QuizApp.answerButtons a' = map QuizApp.createButton (choices nq))).
Proof.
  destruct a as [qz it cur streak hints used bs hb scr tm].
  unfold QuizApp.showNextQuestion; simpl.
  destruct it as [g|]; [|discriminate].
  destruct (Adaptive.next g v) as [g' [q| |name]]; intros [= <-]; simpl.
  - repeat split. right. repeat split. now exists q.
  - repeat split. left. repeat split.
Qed.

(** X15: a session shows a question and no callback is pending; the
    user clicks the button at a position that holds a choice, and the
    delayed callback fires.  Then exactly one more answer is counted;
    the score and the number of correct answers grow by one if the
    clicked choice equals the answer of the question and stay otherwise;
    the streak of the application grows by one or falls to 0
    accordingly; no hint is spent and no callback is left pending.
    Afterwards either the results are on display and every labelled
    question has been answered, or a next question is on display with
    fresh buttons and the hint flag cleared. *)
Theorem quizapp_round (hint0 : QuizApp.HintButton)
    (screen0 : QuizApp.Screen) (questions : list Question)
    (events : list QuizApp.Event) (i : nat) (c : string)
    (q : Quiz.t) (cq : Question) :
  let a := session hint0 screen0 questions events in
  QuizApp.screen a = QuizApp.quizScreen ->
  QuizApp.timers a = [] ->
  QuizApp.quiz a = Some q ->
  QuizApp.currentQuestion a = Some cq ->
  nth_error (choices cq) i = Some c ->
  let a' := QuizApp.dispatch
              (QuizApp.dispatch a (QuizApp.ClickAnswer i))
              QuizApp.TimerFires in
  let gain := if String.eqb (answer cq) c then 1 else 0 in
  exists q',
    QuizApp.quiz a' = Some q' /\
    Quiz.questionIndex q' = Quiz.questionIndex q + 1 /\
    Quiz.score q' = Quiz.score q + gain /\
    Quiz.correctAnswers q' = Quiz.correctAnswers q + gain /\
    Quiz.incorrectAnswers q' = Quiz.incorrectAnswers q + (1 - gain) /\
    QuizApp.correctStreak a'
      = (if String.eqb (answer cq) c
         then S (QuizApp.correctStreak a) else 0) /\
    QuizApp.hintsRemaining a' = QuizApp.hintsRemaining a /\
    QuizApp.timers a' = [] /\
    ((QuizApp.screen a' = QuizApp.resultsScreen /\
      Quiz.questionIndex q' = length (filter tagged questions))
     \/
     (QuizApp.screen a' = QuizApp.quizScreen /\
      QuizApp.usedHintOnCurrentQuestion a' = false /\
      exists nq,
        QuizApp.currentQuestion a' = Some nq /\
        QuizApp.answerButtons a' = map QuizApp.createButton (choices nq))).
Proof.
  intros a S T Hq' Hcq Nth a' gain.
  pose proof (session_inv_reachable hint0 screen0 questions events) as Inv.
  fold a in Inv.
  pose proof (session_inv_dispatch questions _
                QuizApp.TimerFires
                (session_inv_dispatch questions a
                   (QuizApp.ClickAnswer i) Inv)) as Inv'.
  fold a' in Inv'.
  destruct Inv as (q0 & g & Hq & Hg & HQ & Hs & Hc & Hh & Ph).
  rewrite Hq' in Hq. injection Hq as <-.
  destruct Ph as [(_ & _ & N & HB & cq0 & Cur & Bs)
                 |[(_ & (b & T') & _)|(S' & _)]]; try congruence.
  rewrite Hcq in Cur. injection Cur as <-.
  assert (B : exists b, nth_error (QuizApp.answerButtons a) i = Some b /\
                        QuizApp.innerText b = c /\
                        QuizApp.disabled b = false).
  { assert (F : nth_error (freshButtons cq) i
                = Some (QuizApp.createButton c)).
    { unfold freshButtons. now rewrite nth_error_map, Nth. }
    rewrite Bs. destruct (QuizApp.usedHintOnCurrentQuestion a).
    - unfold hintedButtons. rewrite strikeAt_nth, F. simpl.
      eexists. split; [reflexivity|].
      destruct (existsb _ _); split; reflexivity.
    - rewrite F. eexists. split; [reflexivity|]. split; reflexivity. }
  destruct B as (b & Nb & Tb & Db).
  subst a'. clear Bs HB. clearbody a.
  destruct a as [qz it cur streak hints used bs hb scr tm].
  cbn [QuizApp.quiz QuizApp.questionIterator QuizApp.hintsRemaining
       QuizApp.screen QuizApp.timers QuizApp.currentQuestion
       QuizApp.answerButtons QuizApp.correctStreak] in *.
  subst qz it cur scr tm.
  assert (E : forall ok, Quiz.checkAnswer q ok
                         = (fst (Quiz.checkAnswer q ok), ok))
    by (intros ok; unfold Quiz.checkAnswer; destruct ok; reflexivity).
  assert (Click :
    QuizApp.dispatch
      (QuizApp.mk (Some q) (Some g) (Some cq) streak hints used bs hb
         QuizApp.quizScreen [])
      (QuizApp.ClickAnswer i)
    = QuizApp.mk
        (Some (Quiz.nextQuestion
                 (fst (Quiz.checkAnswer q (String.eqb (answer cq) c)))))
        (Some g) (Some cq)
        (if String.eqb (answer cq) c then S streak else 0) hints used
        (map (QuizApp.highlightButton cq) (map QuizApp.disableButton bs))
        hb QuizApp.quizScreen [String.eqb (answer cq) c]).
  { cbn [QuizApp.dispatch QuizApp.answerButtons]. rewrite Nb, Db.
    unfold QuizApp.handleAnswerClick.
    cbn [QuizApp.quiz QuizApp.questionIterator QuizApp.hintsRemaining
         QuizApp.screen QuizApp.timers QuizApp.currentQuestion
         QuizApp.answerButtons QuizApp.correctStreak QuizApp.hintBtn
         QuizApp.usedHintOnCurrentQuestion].
    rewrite Tb. unfold isCorrectAnswer. rewrite E. reflexivity. }
  rewrite Click in *. clear Click.
  cbn [QuizApp.dispatch QuizApp.timers] in *.
  cbn [QuizApp.quiz QuizApp.questionIterator QuizApp.hintsRemaining
       QuizApp.screen QuizApp.timers QuizApp.currentQuestion
       QuizApp.answerButtons QuizApp.correctStreak QuizApp.hintBtn
       QuizApp.usedHintOnCurrentQuestion] in *.
  match goal with
  | |- context [QuizApp.showNextQuestion ?a1 ?v] =>
      destruct (QuizApp.showNextQuestion a1 v) as [a2|] eqn:Sh;
      [ destruct (showNextQuestion_cases _ _ _ Sh)
          as (K1 & K2 & K3 & K4 & K5)
      | exfalso; revert Sh; unfold QuizApp.showNextQuestion;
        cbn [QuizApp.questionIterator];
        destruct (Adaptive.next g v) as [g' [x| |name]] eqn:Nx;
        try discriminate;
        pose proof (adaptive_next_no_throw g v name) as NT;
        rewrite Nx in NT; now elim NT ]
  end.
  cbn [QuizApp.or_unchanged] in *.
  cbn [QuizApp.quiz QuizApp.correctStreak QuizApp.hintsRemaining
       QuizApp.timers QuizApp.screen QuizApp.currentQuestion
       QuizApp.answerButtons] in K1, K2, K3, K4, K5.
  eexists. split; [exact K1|].
  rewrite K2, K3, K4.
  unfold gain, Quiz.checkAnswer.
  destruct (String.eqb (answer cq) c) eqn:Ok; simpl;
    (repeat (split; [reflexivity || lia|]));
    (destruct K5 as [(R & _)|(Q & U & nq & Cn & Bn)];
     [ left; split; [exact R|];
       destruct Inv' as (q2 & g2 & Hq2 & _ & _ & _ & _ & _ & Ph2);
       rewrite K1 in Hq2; injection Hq2 as <-;
       destruct Ph2 as [(S2 & _)|[(S2 & _)|(_ & _ & N2 & _)]];
       [congruence|congruence|exact N2]
     | right; rewrite Q; split; [reflexivity|]; split; [exact U|];
       exists nq; auto ]).
Qed.

Lemma quizapp_round_witness :
  let hint0 := QuizApp.mkHintButton false "1" in
  let a := session hint0 QuizApp.usernameScreen sample_pool [] in
  let a' := QuizApp.dispatch (QuizApp.dispatch a (QuizApp.ClickAnswer 0))
              QuizApp.TimerFires in
  QuizApp.screen a = QuizApp.quizScreen /\
  QuizApp.timers a = [] /\
  QuizApp.quiz a = Some (Quiz.new sample_pool) /\
  QuizApp.currentQuestion a = Some E1 /\
  nth_error (choices E1) 0 = Some "yes"%string /\
  exists q',
    QuizApp.quiz a' = Some q' /\
    Quiz.questionIndex q' = 1 /\
    Quiz.score q' = 1.
Proof.
  intros hint0 a a'.
  assert (S : QuizApp.screen a = QuizApp.quizScreen) by reflexivity.
  assert (T : QuizApp.timers a = []) by reflexivity.
  assert (Q : QuizApp.quiz a = Some (Quiz.new sample_pool)) by reflexivity.
  assert (C : QuizApp.currentQuestion a = Some E1) by reflexivity.
  assert (N : nth_error (choices E1) 0 = Some "yes"%string) by reflexivity.
  repeat (split; [assumption|]).
  destruct (quizapp_round hint0 QuizApp.usernameScreen sample_pool []
              0 "yes" (Quiz.new sample_pool) E1 S T Q C N)
    as (q' & Hq & Hi & Hs & _).
  exists q'. auto.
Defined.

Lemma quizapp_results_screen_witness :
  let a := session (QuizApp.mkHintButton false "1") QuizApp.usernameScreen
             [E1; X1] [QuizApp.ClickAnswer 0; QuizApp.TimerFires] in
  QuizApp.screen a = QuizApp.resultsScreen /\
  exists q,
    QuizApp.quiz a = Some q /\
    Quiz.questionIndex q = 1 /\
    Quiz.score q < length (Quiz.questions q).
Proof.
  intros a.
  assert (S : QuizApp.screen a = QuizApp.resultsScreen) by reflexivity.
  split; [exact S|].
  destruct (quizapp_results_screen (QuizApp.mkHintButton false "1")
              QuizApp.usernameScreen [E1; X1]
              [QuizApp.ClickAnswer 0; QuizApp.TimerFires])
    as (q & Hq & Iff & Res).
  exists q. split; [exact Hq|].
  destruct (proj1 Iff S) as (_ & N).
  destruct (Res S) as (_ & _ & Lt).
  split; [exact N|].
  apply (Lt X1); [simpl; auto|reflexivity].
Defined.
